(** * pxe-js/cluster: the Cluster class of [index.ts]

    A shallow embedding of the TypeScript source (constructor,
    [normalizeOptions], [fork], [start] with its two closures [handler] and
    [exit]) and the properties of the specification checked against it.

    JavaScript objects live in a store and are passed by reference, so that
    the in-place updates of [normalizeOptions] are visible through every
    alias of the options object.  Calls into the Node runtime ([cluster],
    [process], [console], the HTTP server, the [EventEmitter] base class) are
    recorded, in program order, in a trace of effects; what a subscriber
    does when it is notified is not part of the class and is not run.  The
    listeners subscribed through the method [on] are the [super_on] effects
    of the trace: the inherited [emit] throws the error of an [error] event
    that has no listener. *)

From Stdlib Require Import ZArith String Ascii DecimalString.
From stdpp Require Import base gmap strings list.

Local Open Scope Z_scope.
Local Open Scope string_scope.
Local Open Scope list_scope.

(** ** Values and the object store *)

Definition loc := nat.

(** The kind of an object (plain object, array, function) never changes, so
    it is carried by the reference.  Numbers are the integer-valued doubles
    together with [NaN]. *)
Inductive value :=
  | undefined
  | null
  | VBool (b : bool)
  | VNum (n : Z)
  | NaN
  | VStr (s : string)
  | VObj (l : loc)
  | VArr (l : loc)
  | VFun (l : loc).

#[global] Instance value_eq_dec : EqDecision value.
Proof. solve_decision. Defined.

(** An object: its indexed elements (arrays only, dense) and its named own
    enumerable properties. *)
Record cell := Cell { elems : list value; props : gmap string value }.

Definition empty_object : cell := Cell [] ∅.
Definition array_of (l : list value) : cell := Cell l ∅.

(** Values thrown by the code or by the engine. *)
Inductive thrown :=
  | Error (message : string)
  | TypeError (message : string).

Definition message_of (err : thrown) : string :=
  match err with Error m | TypeError m => m end.

(** A forked worker as the cluster runtime hands it out: [cw.id] and
    [cw.process.pid]. *)
Record Worker := { worker_id : nat; worker_pid : Z }.

#[global] Instance Worker_eq_dec : EqDecision Worker.
Proof. solve_decision. Defined.

(** ** Effects on the outside world, in program order *)
Inductive effect :=
  | console_log (args : list value)
  | process_emit (event : string)
  | process_exit
  | emit_start (cw : Worker)
  | emit_error (err : thrown) (process_pid : Z)
  | emit_exit (worker : Worker) (code signal : value)
  | cluster_fork (cw : Worker)
  | on_disconnect (cw : Worker)
  | cluster_on_exit (evOpts : value)
  | process_on_uncaughtException (evOpts : value)
  | super_on (event : string) (listener : value)
  | createServer (isHttps : bool) (advanced app : value)
  | server_listen (port hostname backlog listeningListener : value).

(** What the Node runtime provides to the process. *)
Record runtime := {
  cpus_length : nat;            (* cpus().length *)
  isPrimary : bool;             (* cluster.isPrimary *)
  pid : Z;                      (* process.pid *)
  child_pid : nat → Z;          (* pid of the n-th forked worker *)
  (* ToNumber on strings and objects, [None] for NaN *)
  coerce_number : list cell → value → option Z
}.

Record world := World {
  heap : list cell;
  trace : list effect;
  forked : nat                  (* workers forked so far *)
}.

(** ** Computations: state, exceptions and process termination *)
Inductive outcome (A : Type) :=
  | Ret (a : A)
  | Throw (e : thrown)
  | Exited.                     (* process.exit() does not return *)
Arguments Ret {A} a.
Arguments Throw {A} e.
Arguments Exited {A}.

Definition M (A : Type) : Type := world → outcome A * world.

#[global] Instance M_ret : MRet M := λ A a w, (Ret a, w).
#[global] Instance M_bind : MBind M := λ A B f m w,
  match m w with
  | (Ret a, w') => f a w'
  | (Throw e, w') => (Throw e, w')
  | (Exited, w') => (Exited, w')
  end.

Definition throw {A} (e : thrown) : M A := λ w, (Throw e, w).
Definition perform (e : effect) : M unit :=
  λ w, (Ret tt, World (heap w) (trace w ++ [e]) (forked w)).
Definition exit_process : M unit :=
  λ w, (Exited, World (heap w) (trace w ++ [process_exit]) (forked w)).
Definition alloc (c : cell) : M loc :=
  λ w, (Ret (length (heap w)), World (heap w ++ [c]) (trace w) (forked w)).
Definition read (l : loc) : M cell :=
  λ w, (Ret (default empty_object (heap w !! l)), w).
Definition write (l : loc) (c : cell) : M unit :=
  λ w, (Ret tt, World (<[l:=c]> (heap w)) (trace w) (forked w)).
Definition when (b : bool) (m : M unit) : M unit := if b then m else mret tt.
Definition get_trace : M (list effect) := λ w, (Ret (trace w), w).

(** ** The JavaScript operations the source uses *)

Definition truthy (v : value) : bool :=
  match v with
  | undefined | null | NaN => false
  | VBool b => b
  | VNum n => negb (Z.eqb n 0)
  | VStr s => negb (String.eqb s EmptyString)
  | VObj _ | VArr _ | VFun _ => true
  end.

Definition typeof (v : value) : string :=
  match v with
  | undefined => "undefined"
  | null | VObj _ | VArr _ => "object"
  | VBool _ => "boolean"
  | VNum _ | NaN => "number"
  | VStr _ => "string"
  | VFun _ => "function"
  end.

Definition isArray (v : value) : bool :=
  match v with VArr _ => true | _ => false end.

Definition index_key (i : nat) : string :=
  NilEmpty.string_of_uint (Nat.to_uint i).

(** [Some i] when [k] is the canonical decimal spelling of the index [i]. *)
Definition parse_index (k : string) : option nat :=
  match NilEmpty.uint_of_string k with
  | Some u => let i := Nat.of_uint u in
              if String.eqb (index_key i) k then Some i else None
  | None => None
  end.

Fixpoint chars (s : string) : list value :=
  match s with
  | EmptyString => []
  | String c s' => VStr (String c EmptyString) :: chars s'
  end.

Definition cell_get (kind_is_array : bool) (c : cell) (k : string) : value :=
  if kind_is_array then
    match parse_index k with
    | Some i => default undefined (elems c !! i)
    | None => if String.eqb k "length" then VNum (Z.of_nat (length (elems c)))
              else default undefined (props c !! k)
    end
  else default undefined (props c !! k).

(** [o[k]] and [o.k].  Properties inherited from the built-in prototypes are
    not modelled: the source reads only [events], [listen], [port] and the
    like, and the keys a [for..in] hands back. *)
Definition get_prop (o : value) (k : string) : M value :=
  match o with
  | undefined | null =>
      throw (TypeError ("Cannot read properties of " +:+ typeof o))
  | VBool _ | VNum _ | NaN => mret undefined
  | VStr s =>
      mret (match parse_index k with
            | Some i => default undefined (chars s !! i)
            | None => if String.eqb k "length"
                      then VNum (Z.of_nat (String.length s)) else undefined
            end)
  | VObj l | VFun l => c ← read l; mret (cell_get false c k)
  | VArr l => c ← read l; mret (cell_get true c k)
  end.

Definition cell_set (kind_is_array : bool) (c : cell) (k : string) (v : value)
  : cell :=
  match (if kind_is_array then parse_index k else None) with
  | Some i =>
      if decide (i < length (elems c))%nat
      then Cell (<[i:=v]> (elems c)) (props c)
      else Cell (elems c ++ replicate (i - length (elems c)) undefined ++ [v])
                (props c)
  | None => Cell (elems c) (<[k:=v]> (props c))
  end.

(** [o[k] = v] in strict mode (the file is an ES module). *)
Definition set_prop (o : value) (k : string) (v : value) : M unit :=
  match o with
  | undefined | null =>
      throw (TypeError ("Cannot set properties of " +:+ typeof o))
  | VBool _ | VNum _ | NaN | VStr _ =>
      throw (TypeError ("Cannot create property on " +:+ typeof o))
  | VObj l | VFun l => c ← read l; write l (cell_set false c k v)
  | VArr l => c ← read l; write l (cell_set true c k v)
  end.

Definition cell_keys (kind_is_array : bool) (c : cell) : list string :=
  (if kind_is_array then index_key <$> seq 0 (length (elems c)) else [])
  ++ (map_to_list (props c)).*1.

(** The keys a [for (const key in o)] visits, taken when the loop starts.
    Named keys come in the order of the map rather than in insertion order:
    the one loop of the source treats each key on its own, and only the
    numbering of the arrays it allocates depends on the order. *)
Definition for_in_keys (o : value) : M (list string) :=
  match o with
  | undefined | null | VBool _ | VNum _ | NaN => mret []
  | VStr s => mret (index_key <$> seq 0 (String.length s))
  | VObj l | VFun l => c ← read l; mret (cell_keys false c)
  | VArr l => c ← read l; mret (cell_keys true c)
  end.

Fixpoint for_each {A} (l : list A) (body : A → M unit) : M unit :=
  match l with
  | [] => mret tt
  | x :: l' => body x;; for_each l' body
  end.

Fixpoint is_substring (needle s : string) : bool :=
  String.prefix needle s ||
  match s with
  | EmptyString => false
  | String _ s' => is_substring needle s'
  end.

Definition is_string (name : string) (v : value) : bool :=
  match v with VStr s => String.eqb s name | _ => false end.

(** [r?.includes(name)] for a string literal [name]: short-circuits to
    [undefined] on a nullish receiver, is [Array.prototype.includes] on an
    array and [String.prototype.includes] on a string; any other receiver
    has no [includes] method. *)
Definition optional_includes (r : value) (name : string) : M value :=
  match r with
  | undefined | null => mret undefined
  | VArr l => c ← read l; mret (VBool (existsb (is_string name) (elems c)))
  | VStr s => mret (VBool (is_substring name s))
  | VBool _ | VNum _ | NaN | VObj _ | VFun _ =>
      throw (TypeError "includes is not a function")
  end.

(** [i < v] for a number [i]. *)
Definition ToNumber (rt : runtime) (h : list cell) (v : value) : option Z :=
  match v with
  | VNum n => Some n
  | undefined | NaN => None
  | null => Some 0
  | VBool b => Some (if b then 1 else 0)
  | VStr _ | VObj _ | VArr _ | VFun _ => coerce_number rt h v
  end.

Definition less_than (rt : runtime) (i : Z) (v : value) : M bool :=
  λ w, (Ret (match ToNumber rt (heap w) v with
             | Some n => Z.ltb i n
             | None => false
             end), w).

(** ** The class [Cluster] *)

(** The three fields of an instance; a field not yet assigned reads
    [undefined]. *)
Record Cluster := { options : value; app : value; instances : value }.

Definition set_options (cls : Cluster) (v : value) : Cluster :=
  {| options := v; app := app cls; instances := instances cls |}.
Definition set_instances (cls : Cluster) (v : value) : Cluster :=
  {| options := options cls; app := app cls; instances := v |}.

Definition new_object : M value := l ← alloc empty_object; mret (VObj l).
Definition new_array (l : list value) : M value :=
  a ← alloc (array_of l); mret (VArr a).

Definition nth_arg (args : list value) (i : nat) : value :=
  default undefined (args !! i).

Definition quote : string := String "034"%char EmptyString.

(** Whether a listener of [event] has been subscribed on the instance so
    far (the class never removes one). *)
Definition subscribed (event : string) (tr : list effect) : bool :=
  existsb (λ e, match e with
                | super_on ev _ => String.eqb ev event
                | _ => false
                end) tr.

Section Cluster.
Variable rt : runtime.

(** [opts.events[key] = [opts.events[key]]] unless the entry is an array.
    The assignment target is evaluated before its right-hand side. *)
Definition wrap_entry (opts : value) (key : string) : M unit :=
  events ← get_prop opts "events";
  entry ← get_prop events key;
  if negb (isArray entry) then
    target ← get_prop opts "events";
    events' ← get_prop opts "events";
    entry' ← get_prop events' key;
    arr ← new_array [entry'];
    set_prop target key arr
  else mret tt.

(** [if (!opts.k) opts.k = {};] *)
Definition default_field (opts : value) (k : string) : M unit :=
  field ← get_prop opts k;
  if negb (truthy field)
  then o ← new_object; set_prop opts k o
  else mret tt.

(** [for (const key in opts.events) ...] *)
Definition wrap_entries (opts : value) : M unit :=
  events ← get_prop opts "events";
  keys ← for_in_keys events;
  for_each keys (wrap_entry opts).

Definition normalizeOptions (cls : Cluster) : M Cluster :=
  let opts := options cls in
  '(cls, opts) ←
    (if negb (truthy opts)
     then o ← new_object; mret (set_options cls o, o)
     else mret (cls, opts));
  cls ←
    (if negb (truthy (instances cls))
     then mret (set_instances cls (VNum (Z.of_nat (cpus_length rt))))
     else mret cls);
  default_field opts "events";;
  default_field opts "listen";;
  wrap_entries opts;;
  mret cls.

Definition constructor (args : list value) : M Cluster :=
  let firstArg := nth_arg args 0 in
  let nextArg := nth_arg args 1 in
  let lastArg := nth_arg args 2 in
  if negb (String.eqb (typeof firstArg) "function")
  then throw (Error "Target app is not specified")
  else
    let this := {| options := undefined; app := firstArg;
                   instances := undefined |} in
    let this :=
      if truthy nextArg then
        if truthy lastArg
        then set_instances (set_options this lastArg) nextArg
        else if String.eqb (typeof nextArg) "number"
             then set_instances this nextArg
             else set_options this nextArg
      else this in
    normalizeOptions this.

(** [cluster.fork()]: the runtime numbers the workers 1, 2, ... *)
Definition cluster_fork_call : M Worker := λ w,
  let cw := {| worker_id := S (forked w);
               worker_pid := child_pid rt (S (forked w)) |} in
  (Ret cw, World (heap w) (trace w ++ [cluster_fork cw]) (S (forked w))).

Definition fork (this : Cluster) : M unit :=
  cw ← cluster_fork_call;
  perform (emit_start cw);;
  perform (on_disconnect cw).

(** The method [on]: [return super.on(event, listener)]. *)
Definition on (event : string) (listener : value) : M unit :=
  perform (super_on event listener).

(** [this.emit("error", err, process)].  [emit] is inherited from
    [EventEmitter]: for the event [error] it throws its argument [err] (an
    [Error]) when no listener is subscribed.  Thrown out of the handler of
    [uncaughtException], the error ends the process. *)
Definition this_emit_error (err : thrown) : M unit :=
  perform (emit_error err (pid rt));;
  so_far ← get_trace;
  if subscribed "error" so_far then mret tt else throw err.

(** The closure [handler] of [start]; it reads [evOpts] when it runs. *)
Definition handler (evOpts : value) (err : thrown) : M unit :=
  policy ← get_prop evOpts "error";
  b ← optional_includes policy "throw";
  (if truthy b then throw err else mret tt);;
  policy ← get_prop evOpts "error";
  b ← optional_includes policy "log";
  when (truthy b)
    (perform (console_log [VStr "Error:";
                           VStr (quote +:+ message_of err +:+ quote);
                           VStr "in child process"; VNum (pid rt)]));;
  policy ← get_prop evOpts "error";
  b ← optional_includes policy "exit";
  when (truthy b) (perform (process_emit "disconnect");; exit_process);;
  this_emit_error err.

(** The closure [exit] of [start], called by the cluster runtime with
    [(worker, code, signal)]. *)
Definition exit (evOpts : value) (worker : Worker) (code signal : value)
  : M unit :=
  policy ← get_prop evOpts "exit";
  b ← optional_includes policy "log";
  when (truthy b)
    (perform (console_log [VStr "Worker"; VNum (worker_pid worker);
                           VStr "exited."]));;
  policy ← get_prop evOpts "exit";
  b ← optional_includes policy "exit";
  when (truthy b) exit_process;;
  perform (emit_exit worker code signal).

(** [for (let i = 0; i < this.instances; ++i) this.fork();] *)
Fixpoint fork_loop (fuel : nat) (i : Z) (this : Cluster) : M unit :=
  match fuel with
  | O => mret tt
  | S fuel' =>
      b ← less_than rt i (instances this);
      if (b : bool) then fork this;; fork_loop fuel' (i + 1) this else mret tt
  end.

(** The number of iterations of that loop; [fork_loop] is run with this
    much fuel, and [fork_loop_fuel] shows that more changes nothing. *)
Definition loop_bound (v : value) : M nat := λ w,
  (Ret (match ToNumber rt (heap w) v with
        | Some n => Z.to_nat n
        | None => O
        end), w).

Definition start (this : Cluster) : M unit :=
  let opts := options this in
  listenOpts ← get_prop opts "listen";
  evOpts ← get_prop opts "events";
  if isPrimary rt then
    fuel ← loop_bound (instances this);
    fork_loop fuel 0 this;;
    perform (cluster_on_exit evOpts)
  else
    perform (process_on_uncaughtException evOpts);;
    isHttps ← get_prop opts "isHttps";
    advanced ← get_prop opts "advanced";
    perform (createServer (truthy isHttps) advanced (app this));;
    port ← get_prop listenOpts "port";
    hostname ← get_prop listenOpts "hostname";
    backlog ← get_prop listenOpts "backlog";
    listeningListener ← get_prop listenOpts "listeningListener";
    perform (server_listen (if truthy port then port else VNum 8080)
               hostname backlog listeningListener).

End Cluster.

(** ** The Event Policy Engine as the specification words it

    "Execute each configured action in the order listed": the list is walked
    once, front to back, and every entry runs its action.  These definitions
    follow the specification's text; they are compared below with [handler]
    and [exit], which follow the source. *)

Definition log_error_line (rt : runtime) (err : thrown) : effect :=
  console_log [VStr "Error:"; VStr (quote +:+ message_of err +:+ quote);
               VStr "in child process"; VNum (pid rt)].

Definition log_exit_line (worker : Worker) : effect :=
  console_log [VStr "Worker"; VNum (worker_pid worker); VStr "exited."].

Definition spec_error_action (rt : runtime) (err : thrown) (a : value)
  : M unit :=
  if is_string "throw" a then throw err
  else if is_string "log" a then perform (log_error_line rt err)
  else if is_string "exit" a
       then perform (process_emit "disconnect");; exit_process
  else mret tt.

Definition spec_exit_action (worker : Worker) (a : value) : M unit :=
  if is_string "log" a then perform (log_exit_line worker)
  else if is_string "exit" a then exit_process
  else mret tt.

Definition spec_error_policy (rt : runtime) (err : thrown)
  (policy : list value) : M unit :=
  for_each policy (spec_error_action rt err).

Definition spec_exit_policy (worker : Worker) (policy : list value)
  : M unit :=
  for_each policy (spec_exit_action worker).

(** The order in which the source tests for the actions. *)
Definition error_actions : list string := ["throw"; "log"; "exit"].
Definition exit_actions : list string := ["log"; "exit"].

(** The actions of [order] that occur somewhere in [policy], each once, in
    the order of [order]. *)
Definition selected (order : list string) (policy : list value)
  : list value :=
  VStr <$> List.filter (λ a, existsb (is_string a) policy) order.

(** The generic notifications, and what is left of a trace without them. *)
Definition is_notification (e : effect) : bool :=
  match e with
  | emit_error _ _ | emit_exit _ _ _ => true
  | _ => false
  end.

Definition actions_of (tr : list effect) : list effect :=
  List.filter (λ e, negb (is_notification e)) tr.

(** The workers handed out by [n] forks after [base] earlier ones. *)
Definition workers (rt : runtime) (base n : nat) : list Worker :=
  (λ i, {| worker_id := i; worker_pid := child_pid rt i |})
    <$> seq (S base) n.

Definition fork_effects (cw : Worker) : list effect :=
  [cluster_fork cw; emit_start cw; on_disconnect cw].

(** [policy.includes(name)] on the elements of the policy array. *)
Definition has (name : string) (policy : list value) : bool :=
  existsb (is_string name) policy.

(** The instance once [instances] has its default. *)
Definition with_default_instances (rt : runtime) (cls : Cluster) : Cluster :=
  if truthy (instances cls) then cls
  else set_instances cls (VNum (Z.of_nat (cpus_length rt))).

(** The options object [lo] has no [events], or its [events] is another
    object of the store (as the declared type [Options] has it). *)
Definition events_plain (h : list cell) (lo : loc) (co : cell) : bool :=
  match default undefined (props co !! "events") with
  | VObj le => bool_decide (le ≠ lo) && bool_decide (is_Some (h !! le))
  | v => negb (truthy v)
  end.


(** ** Sample inputs *)

Definition sample_runtime (primary : bool) : runtime :=
  {| cpus_length := 8; isPrimary := primary; pid := 4242;
     child_pid := λ n, 5000 + Z.of_nat n; coerce_number := λ _ _, None |}.

Definition sample_worker : Worker := {| worker_id := 1; worker_pid := 5001 |}.

(** Object 0 is an events object whose [slot] holds the array 1 with the
    given policy. *)
Definition policy_world (slot : string) (policy : list value) : world :=
  World [Cell [] {[ slot := VArr 1%nat ]}; array_of policy] [] 0.

(** [{error: ["exit", "log", "log"], exit: ["exit", "log"]}] *)
Definition two_policies_world : world :=
  World [Cell [] {[ "error" := VArr 1%nat; "exit" := VArr 2%nat ]};
         array_of [VStr "exit"; VStr "log"; VStr "log"];
         array_of [VStr "exit"; VStr "log"]] [] 0.

Definition sample_options : cell := Cell [] {[ "events" := VObj 2%nat ]}.
Definition sample_events : cell :=
  Cell [] {[ "error" := VStr "log"; "exit" := VArr 3%nat ]}.

(** Object 0 is the app, object 1 the options
    [{events: {error: "log", exit: ["log", "exit"]}}]. *)
Definition sample_options_world : world :=
  World [empty_object; sample_options; sample_events;
         array_of [VStr "log"; VStr "exit"]] [] 0.

Definition sample_cluster : Cluster :=
  {| options := VObj 1%nat; app := VFun 0%nat; instances := undefined |}.

(** Object 1 is the options [{listen: {port: 9000}}]. *)
Definition sample_listen_world : world :=
  World [empty_object; Cell [] {[ "listen" := VObj 2%nat ]};
         Cell [] {[ "port" := VNum 9000 ]}] [] 0.

(** Object 1 is the options [{listen: {port: 0}}]. *)
Definition zero_port_world : world :=
  World [empty_object; Cell [] {[ "listen" := VObj 2%nat ]};
         Cell [] {[ "port" := VNum 0 ]}] [] 0.

(** Object 1 is the options [{events: {error: []}}]. *)
Definition empty_policy_world : world :=
  World [empty_object; Cell [] {[ "events" := VObj 2%nat ]};
         Cell [] {[ "error" := VArr 3%nat ]}; array_of []] [] 0.

(** Object 1 is the options [{events: {exit: "exit"}}]. *)
Definition singular_exit_world : world :=
  World [empty_object; Cell [] {[ "events" := VObj 2%nat ]};
         Cell [] {[ "exit" := VStr "exit" ]}] [] 0.

(** [new Cluster(...args)], a listener subscribed with [on] to each of
    [events], [start()], and then the runtime calls the closure that [start]
    registered, with the [evOpts] it captured. *)
Definition started_then (rt : runtime) (args : list value)
  (events : list string) (callback : value → M unit) : M unit :=
  cluster ← constructor rt args;
  for_each events (λ event, on event (VFun 0%nat));;
  start rt cluster;;
  evOpts ← get_prop (options cluster) "events";
  callback evOpts.

(** ** Further notions used below *)


(** The policy that a closure finds in its slot of the events object: none
    when the slot is not set, the elements of the array when it holds one
    (an array outside the store reads as empty).  For the other values
    [includes] is not the array method. *)
Definition policy_of (h : list cell) (slot : value) : option (list value) :=
  match slot with
  | undefined | null => Some []
  | VArr la => Some (elems (default empty_object (h !! la)))
  | _ => None
  end.

(** A field that [normalizeOptions] fills in: kept when it is truthy,
    otherwise a new empty object of the store [h']. *)
Definition defaulted (h h' : list cell) (before after : option value)
  : Prop :=
  if truthy (default undefined before) then after = before
  else ∃ l, (length h ≤ l)%nat ∧ after = Some (VObj l)
            ∧ h' !! l = Some empty_object.

(** An entry of the events object after the loop of [normalizeOptions]:
    an array is kept, any other value is in a new one-element array of the
    store [h'], and no entry is added. *)
Definition wrapped (h' : list cell) (before after : option value) : Prop :=
  match before with
  | None => after = None
  | Some v =>
      if isArray v then after = Some v
      else ∃ la, after = Some (VArr la) ∧ h' !! la = Some (array_of [v])
  end.



(** The instance's options is an object of the store with an [events] and a
    [listen] (what [start] reads without a guard). *)
Definition populated (h : list cell) (this : Cluster) : bool :=
  match options this with
  | VObj lo =>
      match h !! lo with
      | Some co => truthy (default undefined (props co !! "events"))
                   && truthy (default undefined (props co !! "listen"))
      | None => false
      end
  | _ => false
  end.

(** An options argument as the declared type [Options] has it: an object of
    the store whose [events] is missing or another object. *)
Definition options_plain (h : list cell) (lo : loc) : bool :=
  match h !! lo with
  | Some co => events_plain h lo co
  | None => false
  end.

(** The four declared overloads of the constructor. *)
Definition declared_overload (h : list cell) (args : list value) : bool :=
  match args with
  | [VFun _] => true
  | [VFun _; VNum _] => true
  | [VFun _; VObj lo] => options_plain h lo
  | [VFun _; VNum _; VObj lo] => options_plain h lo
  | _ => false
  end.

(** The entries of a policy that one of the closures tests for. *)
Definition known_action (order : list string) (v : value) : bool :=
  existsb (λ name, is_string name v) order.

(** Object 1 is the options [{events: {error: 5, exit: "log"}}]. *)
Definition singular_policies_world : world :=
  World [empty_object; Cell [] {[ "events" := VObj 2%nat ]};
         Cell [] {[ "error" := VNum 5; "exit" := VStr "log" ]}] [] 0.

(** Objects 0 and 2 are the events objects
    [{error: ["continue", "log", 7]}] and [{error: ["log"]}]. *)
Definition noisy_policy_world : world :=
  World [Cell [] {[ "error" := VArr 1%nat ]};
         array_of [VStr "continue"; VStr "log"; VNum 7];
         Cell [] {[ "error" := VArr 3%nat ]};
         array_of [VStr "log"]] [] 0.

(** Object 1 is the options [{events: {}, listen: {port: "3000"}}]. *)
Definition populated_world : world :=
  World [empty_object;
         Cell [] {[ "events" := VObj 2%nat; "listen" := VObj 3%nat ]};
         empty_object; Cell [] {[ "port" := VStr "3000" ]}] [] 0.

Definition populated_cluster : Cluster :=
  {| options := VObj 1%nat; app := VFun 0%nat; instances := VNum 2 |}.

(** A computation that leaves the store as it is, and one that at most adds
    new objects to it. *)
Definition keeps_store {A} (m : M A) : Prop :=
  ∀ w, heap (m w).2 = heap w.

Definition grows_store {A} (m : M A) : Prop :=
  ∀ w, heap w `prefix_of` heap (m w).2.

(** ** The two earlier versions of the class, [src/index.ts]

    [First] is the version of lines 1-104, [Second] that of lines 104-249.
    Their listeners are the same, and the body of their fork loop is the
    body of the later method [fork]. *)
Module Earlier.

Section Listeners.
Variable rt : runtime.

(** [v || {}] *)
Definition or_new_object (v : value) : M value :=
  if truthy v then mret v else new_object.

(** The listener given to [cluster.on("exit", ...)]. *)
Definition exit_listener (evOpts : value) (worker : Worker)
  (code signal : value) : M unit :=
  policy ← get_prop evOpts "exit";
  if is_string "exit" policy then exit_process
  else
    policy ← get_prop evOpts "exit";
    if is_string "restart" policy then cluster_fork_call rt;; mret tt
    else
      policy ← get_prop evOpts "exit";
      if is_string "log" policy
      then perform (console_log [VStr "Worker"; VNum (worker_pid worker);
                                 VStr "exited."])
      else perform (emit_exit worker code signal).

(** The closure [handler]. *)
Definition handler (evOpts : value) (err : thrown) : M unit :=
  policy ← get_prop evOpts "error";
  if is_string "throw" policy then throw err
  else
    policy ← get_prop evOpts "error";
    if is_string "exit" policy
    then perform (process_emit "disconnect");; exit_process
    else
      policy ← get_prop evOpts "error";
      if is_string "log" policy
      then perform (console_log [VStr "Error:";
                                 VStr (quote +:+ message_of err +:+ quote);
                                 VStr "in child process"; VNum (pid rt)]);;
           exit_process
      else this_emit_error rt err.

(** The coordinator path of [start]. *)
Definition coordinate (this : Cluster) (evOpts : value) : M unit :=
  fuel ← loop_bound rt (instances this);
  fork_loop rt fuel 0 this;;
  perform (cluster_on_exit evOpts).

End Listeners.

Module First.
Section First.
Variable rt : runtime.

(** [constructor(options, instances = cpus().length)]: the default stands in
    for an [undefined] argument only.  This version has no field [app]. *)
Definition constructor (args : list value) : M Cluster :=
  let options := nth_arg args 0 in
  let instances := nth_arg args 1 in
  mret {| options := options; app := undefined;
          instances := match instances with
                       | undefined => VNum (Z.of_nat (cpus_length rt))
                       | _ => instances
                       end |}.

Definition start (this : Cluster) : M unit :=
  let opts := options this in
  listen ← get_prop opts "listen";
  listenOpts ← or_new_object listen;
  events ← get_prop opts "events";
  evOpts ← or_new_object events;
  if isPrimary rt then coordinate rt this evOpts
  else
    perform (process_on_uncaughtException evOpts);;
    isHttps ← get_prop opts "isHttps";
    advanced ← get_prop opts "advanced";
    app ← get_prop opts "app";
    perform (createServer (truthy isHttps) advanced app);;
    port ← get_prop listenOpts "port";
    hostname ← get_prop listenOpts "hostname";
    backlog ← get_prop listenOpts "backlog";
    listeningListener ← get_prop listenOpts "listeningListener";
    perform (server_listen port hostname backlog listeningListener).

End First.
End First.

Module Second.
Section Second.
Variable rt : runtime.

Definition constructor (args : list value) : M Cluster :=
  let firstArg := nth_arg args 0 in
  let nextArg := nth_arg args 1 in
  let lastArg := nth_arg args 2 in
  if negb (String.eqb (typeof firstArg) "function")
  then throw (Error "Target app is not specified")
  else
    let this := {| options := undefined; app := firstArg;
                   instances := undefined |} in
    let this :=
      if truthy nextArg then
        if truthy lastArg
        then set_instances (set_options this lastArg) nextArg
        else if String.eqb (typeof nextArg) "number"
             then set_instances this nextArg
             else set_options this nextArg
      else this in
    this ←
      (if negb (truthy (options this))
       then o ← new_object; mret (set_options this o)
       else mret this);
    if negb (truthy (instances this))
    then mret (set_instances this (VNum (Z.of_nat (cpus_length rt))))
    else mret this.

Definition start (this : Cluster) : M unit :=
  let opts := options this in
  listen ← get_prop opts "listen";
  listenOpts ← or_new_object listen;
  events ← get_prop opts "events";
  evOpts ← or_new_object events;
  if isPrimary rt then coordinate rt this evOpts
  else
    perform (process_on_uncaughtException evOpts);;
    isHttps ← get_prop opts "isHttps";
    advanced ← get_prop opts "advanced";
    perform (createServer (truthy isHttps) advanced (app this));;
    port ← get_prop listenOpts "port";
    hostname ← get_prop listenOpts "hostname";
    backlog ← get_prop listenOpts "backlog";
    listeningListener ← get_prop listenOpts "listeningListener";
    perform (server_listen (if truthy port then port else VNum 8080)
               hostname backlog listeningListener).

End Second.
End Second.

End Earlier.



(** ** Stepping through computations *)

Lemma bind_unfold {A B} (m : M A) (f : A → M B) (w : world) :
  (m ≫= f) w =
  match m w with
  | (Ret a, w') => f a w'
  | (Throw e, w') => (Throw e, w')
  | (Exited, w') => (Exited, w')
  end.
Proof. reflexivity. Qed.

Lemma get_prop_obj (l : loc) (k : string) (c : cell) (w : world) :
  heap w !! l = Some c →
  get_prop (VObj l) k w = (Ret (default undefined (props c !! k)), w).
Proof.
  intros H. unfold get_prop, read. rewrite bind_unfold. simpl.
  rewrite H. reflexivity.
Qed.

Ltac unfold_M :=
  unfold get_prop, set_prop, optional_includes, for_in_keys, new_object,
    new_array, read, write, alloc, when, perform, exit_process, throw,
    less_than, mbind, M_bind, mret, M_ret.

(** ** The two closures of [start] on a policy *)

(** Reading a property depends on the store only. *)
Lemma get_prop_any_trace (o : value) (k : string) (v : value) (w : world) :
  get_prop o k w = (Ret v, w) →
  ∀ tr n, get_prop o k (World (heap w) tr n) = (Ret v, World (heap w) tr n).
Proof.
  intros Hget tr n. destruct w as [h tr0 n0].
  destruct o; cbn in Hget |- *; try done;
    injection Hget as <-; reflexivity.
Qed.

Lemma includes_on_policy (h : list cell) (slot : value)
    (policy : list value) (name : string) (tr : list effect) (n : nat) :
  policy_of h slot = Some policy →
  ∃ b, optional_includes slot name (World h tr n) = (Ret b, World h tr n)
       ∧ truthy b = has name policy.
Proof.
  intros Hpolicy. destruct slot; try done; cbn in Hpolicy;
    injection Hpolicy as <-.
  all: eexists; split; reflexivity.
Qed.

Lemma subscribed_app (event : string) (tr tr' : list effect) :
  subscribed event (tr ++ tr') = subscribed event tr || subscribed event tr'.
Proof. unfold subscribed. apply existsb_app. Qed.

Lemma this_emit_error_run (rt : runtime) (err : thrown) (h : list cell)
    (tr : list effect) (n : nat) :
  this_emit_error rt err (World h tr n) =
  (if subscribed "error" tr then Ret tt else Throw err,
   World h (tr ++ [emit_error err (pid rt)]) n).
Proof.
  unfold this_emit_error, get_trace. rewrite !bind_unfold.
  cbn [perform trace heap forked]. rewrite bind_unfold. cbn beta iota.
  cbn [trace]. rewrite subscribed_app. cbn [subscribed existsb]. rewrite orb_false_r.
  by destruct (subscribed "error" tr).
Qed.

Ltac step_includes Hpolicy :=
  rewrite bind_unfold;
  match goal with
  | |- context [optional_includes ?s ?name (World ?h ?tr ?n)] =>
      let b := fresh "b" in
      let Hb := fresh "Hb" in
      let Ht := fresh "Ht" in
      destruct (includes_on_policy h s _ name tr n Hpolicy) as (b & Hb & Ht);
      rewrite Hb; cbn beta iota; rewrite Ht; clear b Hb Ht
  end.

Ltac step_perform :=
  rewrite bind_unfold;
  match goal with
  | |- context [perform ?e (World ?h ?tr ?n)] =>
      change (perform e (World h tr n)) with (Ret tt, World h (tr ++ [e]) n);
      cbn beta iota
  end.

(** [handler] on the policy of its slot. *)
Lemma handler_on_policy (rt : runtime) (evOpts slot : value)
    (policy : list value) (err : thrown) (w : world) :
  get_prop evOpts "error" w = (Ret slot, w) →
  policy_of (heap w) slot = Some policy →
  handler rt evOpts err w =
  if has "throw" policy then (Throw err, w)
  else if has "exit" policy
  then (Exited,
        World (heap w)
          (trace w ++ (if has "log" policy then [log_error_line rt err]
                       else []) ++ [process_emit "disconnect"; process_exit])
          (forked w))
  else (if subscribed "error" (trace w) then Ret tt else Throw err,
        World (heap w)
          (trace w ++ (if has "log" policy then [log_error_line rt err]
                       else []) ++ [emit_error err (pid rt)])
          (forked w)).
Proof.
  intros Hget Hpolicy. pose proof (get_prop_any_trace _ _ _ _ Hget) as Hany.
  destruct w as [h tr n]. cbn [heap trace forked] in *.
  unfold handler.
  rewrite bind_unfold, Hany. cbn beta iota.
  step_includes Hpolicy.
  rewrite bind_unfold.
  destruct (has "throw" policy); [reflexivity|].
  change ((mret tt : M unit) (World h tr n)) with (Ret tt, World h tr n). cbn beta iota.
  rewrite bind_unfold, Hany. cbn beta iota.
  step_includes Hpolicy.
  rewrite bind_unfold.
  destruct (has "log" policy); cbn [when].
  - unfold log_error_line.
    change (perform ?e (World h tr n)) with (Ret tt, World h (tr ++ [e]) n).
    cbn beta iota.
    rewrite bind_unfold, Hany. cbn beta iota.
    step_includes Hpolicy.
    rewrite bind_unfold.
    destruct (has "exit" policy); cbn [when].
    + rewrite bind_unfold. cbn. by rewrite <- !app_assoc.
    + change ((mret tt : M unit) (World h ?t n)) with (Ret tt, World h t n).
      cbn beta iota. rewrite this_emit_error_run.
      rewrite subscribed_app. cbn [subscribed existsb]. rewrite orb_false_r.
      by rewrite <- !app_assoc.
  - change ((mret tt : M unit) (World h tr n)) with (Ret tt, World h tr n).
    cbn beta iota.
    rewrite bind_unfold, Hany. cbn beta iota.
    step_includes Hpolicy.
    rewrite bind_unfold.
    destruct (has "exit" policy); cbn [when].
    + rewrite bind_unfold. cbn. by rewrite <- !app_assoc.
    + change ((mret tt : M unit) (World h tr n)) with (Ret tt, World h tr n).
      cbn beta iota. by rewrite this_emit_error_run.
Qed.

(** [exit] on the policy of its slot. *)
Lemma exit_on_policy (evOpts slot : value) (policy : list value)
    (worker : Worker) (code signal : value) (w : world) :
  get_prop evOpts "exit" w = (Ret slot, w) →
  policy_of (heap w) slot = Some policy →
  exit evOpts worker code signal w =
  if has "exit" policy
  then (Exited,
        World (heap w)
          (trace w ++ (if has "log" policy then [log_exit_line worker]
                       else []) ++ [process_exit])
          (forked w))
  else (Ret tt,
        World (heap w)
          (trace w ++ (if has "log" policy then [log_exit_line worker]
                       else []) ++ [emit_exit worker code signal])
          (forked w)).
Proof.
  intros Hget Hpolicy. pose proof (get_prop_any_trace _ _ _ _ Hget) as Hany.
  destruct w as [h tr n]. cbn [heap trace forked] in *.
  unfold exit.
  rewrite bind_unfold, Hany. cbn beta iota.
  step_includes Hpolicy.
  rewrite bind_unfold.
  destruct (has "log" policy); cbn [when].
  - unfold log_exit_line.
    change (perform ?e (World h tr n)) with (Ret tt, World h (tr ++ [e]) n).
    cbn beta iota.
    rewrite bind_unfold, Hany. cbn beta iota.
    step_includes Hpolicy.
    rewrite bind_unfold.
    destruct (has "exit" policy); cbn [when].
    + cbn. by rewrite <- app_assoc.
    + unfold perform. cbn. by rewrite <- app_assoc.
  - change ((mret tt : M unit) (World h tr n)) with (Ret tt, World h tr n).
    cbn beta iota.
    rewrite bind_unfold, Hany. cbn beta iota.
    step_includes Hpolicy.
    rewrite bind_unfold.
    destruct (has "exit" policy); cbn [when]; reflexivity.
Qed.

(** On an array policy held by an events object of the store. *)
Lemma exit_run (le la : loc) (ce ca : cell) (worker : Worker)
    (code signal : value) (w : world) :
  heap w !! le = Some ce →
  props ce !! "exit" = Some (VArr la) →
  heap w !! la = Some ca →
  exit (VObj le) worker code signal w =
  if has "exit" (elems ca)
  then (Exited,
        World (heap w)
          (trace w ++ (if has "log" (elems ca) then [log_exit_line worker]
                       else []) ++ [process_exit])
          (forked w))
  else (Ret tt,
        World (heap w)
          (trace w ++ (if has "log" (elems ca) then [log_exit_line worker]
                       else []) ++ [emit_exit worker code signal])
          (forked w)).
Proof.
  intros Hle Hexit Hla.
  apply (exit_on_policy _ (VArr la)).
  - rewrite (get_prop_obj le "exit" ce w Hle), Hexit. reflexivity.
  - cbn. by rewrite Hla.
Qed.

Lemma handler_run (rt : runtime) (le la : loc) (ce ca : cell) (err : thrown)
    (w : world) :
  heap w !! le = Some ce →
  props ce !! "error" = Some (VArr la) →
  heap w !! la = Some ca →
  handler rt (VObj le) err w =
  if has "throw" (elems ca) then (Throw err, w)
  else if has "exit" (elems ca)
  then (Exited,
        World (heap w)
          (trace w ++ (if has "log" (elems ca) then [log_error_line rt err]
                       else []) ++ [process_emit "disconnect"; process_exit])
          (forked w))
  else (if subscribed "error" (trace w) then Ret tt else Throw err,
        World (heap w)
          (trace w ++ (if has "log" (elems ca) then [log_error_line rt err]
                       else []) ++ [emit_error err (pid rt)])
          (forked w)).
Proof.
  intros Hle Herror Hla.
  apply (handler_on_policy _ _ (VArr la)).
  - rewrite (get_prop_obj le "error" ce w Hle), Herror. reflexivity.
  - cbn. by rewrite Hla.
Qed.

(** The specification's engine on the actions selected in the fixed order,
    followed by the notification. *)
Lemma error_engine_on_selected (rt : runtime) (policy : list value)
    (err : thrown) (w : world) :
  (spec_error_policy rt err (selected error_actions policy);;
   this_emit_error rt err) w =
  if has "throw" policy then (Throw err, w)
  else if has "exit" policy
  then (Exited,
        World (heap w)
          (trace w ++ (if has "log" policy then [log_error_line rt err]
                       else []) ++ [process_emit "disconnect"; process_exit])
          (forked w))
  else (if subscribed "error" (trace w) then Ret tt else Throw err,
        World (heap w)
          (trace w ++ (if has "log" policy then [log_error_line rt err]
                       else []) ++ [emit_error err (pid rt)])
          (forked w)).
Proof.
  destruct w as [h tr n]. rewrite bind_unfold.
  unfold has, selected, error_actions, spec_error_policy.
  cbn [List.filter fmap list_fmap].
  destruct (existsb (is_string "throw") policy) eqn:Et;
    destruct (existsb (is_string "log") policy) eqn:El;
    destruct (existsb (is_string "exit") policy) eqn:Ee;
    cbn -[this_emit_error]; unfold_M; cbn -[this_emit_error];
    rewrite ?this_emit_error_run, ?subscribed_app;
    cbn [subscribed existsb]; rewrite ?orb_false_r, <- ?app_assoc;
    reflexivity.
Qed.

Lemma exit_engine_on_selected (policy : list value) (worker : Worker)
    (code signal : value) (w : world) :
  (spec_exit_policy worker (selected exit_actions policy);;
   perform (emit_exit worker code signal)) w =
  if has "exit" policy
  then (Exited,
        World (heap w)
          (trace w ++ (if has "log" policy then [log_exit_line worker]
                       else []) ++ [process_exit])
          (forked w))
  else (Ret tt,
        World (heap w)
          (trace w ++ (if has "log" policy then [log_exit_line worker]
                       else []) ++ [emit_exit worker code signal])
          (forked w)).
Proof.
  destruct w as [h tr n]. rewrite bind_unfold.
  unfold has, selected, exit_actions, spec_exit_policy.
  cbn [List.filter fmap list_fmap].
  destruct (existsb (is_string "log") policy) eqn:El;
    destruct (existsb (is_string "exit") policy) eqn:Ee;
    cbn; unfold_M; cbn; rewrite <- ?app_assoc; reflexivity.
Qed.

(** ** C1: order and multiplicity of the configured actions *)

(** C1, as stated, fails: with the exit policy [exit, log] the specification's
    engine terminates before logging, whereas [exit] logs first and then
    terminates. *)
Lemma exit_policy_order_counterexample :
  let w := policy_world "exit" [VStr "exit"; VStr "log"] in
  actions_of (trace (spec_exit_policy sample_worker
                       [VStr "exit"; VStr "log"] w).2)
    = [process_exit] ∧
  actions_of (trace (exit (VObj 0%nat) sample_worker (VNum 0) null w).2)
    = [log_exit_line sample_worker; process_exit].
Proof. split; vm_compute; reflexivity. Qed.

(** C1 (amended): for an error policy and for an exit policy alike, an array
    or an unset entry, the actions are tested in the fixed order throw, log,
    exit (log, exit for a worker exit), whatever the order and multiplicity
    of the entries.  An action named somewhere in the sequence runs at most
    once, and it runs exactly when no action before it in that fixed order
    has ended the run: [throw] re-throws the error before anything else, so
    neither [log] nor [exit] runs beside it; without [throw], [log] writes
    its one line and [exit] then terminates.  The closures behave as the
    specification's engine run on the selected actions in that fixed order,
    followed by the notification, and their outcome and effects are the ones
    listed. *)
Theorem policy_actions_fixed_order (rt : runtime) (evOpts : value)
    (err : thrown) (worker : Worker) (code signal : value) (w : world) :
  (∀ slot policy,
     get_prop evOpts "error" w = (Ret slot, w) →
     policy_of (heap w) slot = Some policy →
     handler rt evOpts err w =
       (spec_error_policy rt err (selected error_actions policy);;
        this_emit_error rt err) w
     ∧ handler rt evOpts err w =
       if has "throw" policy then (Throw err, w)
       else
         let logged :=
           if has "log" policy then [log_error_line rt err] else [] in
         if has "exit" policy
         then (Exited,
               World (heap w)
                 (trace w ++ logged
                  ++ [process_emit "disconnect"; process_exit])
                 (forked w))
         else (if subscribed "error" (trace w) then Ret tt else Throw err,
               World (heap w)
                 (trace w ++ logged ++ [emit_error err (pid rt)])
                 (forked w)))
  ∧
  (∀ slot policy,
     get_prop evOpts "exit" w = (Ret slot, w) →
     policy_of (heap w) slot = Some policy →
     exit evOpts worker code signal w =
       (spec_exit_policy worker (selected exit_actions policy);;
        perform (emit_exit worker code signal)) w
     ∧ exit evOpts worker code signal w =
       let logged :=
         if has "log" policy then [log_exit_line worker] else [] in
       if has "exit" policy
       then (Exited,
             World (heap w) (trace w ++ logged ++ [process_exit]) (forked w))
       else (Ret tt,
             World (heap w)
               (trace w ++ logged ++ [emit_exit worker code signal])
               (forked w))).
Proof.
  split; intros slot policy Hget Hpolicy; cbv zeta.
  - rewrite error_engine_on_selected.
    split; apply (handler_on_policy rt evOpts slot policy err w Hget Hpolicy).
  - rewrite exit_engine_on_selected.
    split;
      apply (exit_on_policy evOpts slot policy worker code signal w
               Hget Hpolicy).
Qed.

(** An error policy naming [throw] beside the others only re-throws; an
    exit policy on its own, in either order, logs and then terminates. *)
Lemma policy_actions_fixed_order_witness :
  (let w := policy_world "error" [VStr "log"; VStr "throw"; VStr "exit"] in
   handler (sample_runtime false) (VObj 0%nat) (Error "boom") w =
   (Throw (Error "boom"), w))
  ∧
  (let w := policy_world "exit" [VStr "exit"; VStr "log"] in
   exit (VObj 0%nat) sample_worker (VNum 0) null w =
   (spec_exit_policy sample_worker [VStr "log"; VStr "exit"];;
    perform (emit_exit sample_worker (VNum 0) null)) w).
Proof.
  split.
  - exact (proj2 (proj1 (policy_actions_fixed_order (sample_runtime false)
                           (VObj 0%nat) (Error "boom") sample_worker (VNum 0)
                           null
                           (policy_world "error"
                              [VStr "log"; VStr "throw"; VStr "exit"]))
                    (VArr 1%nat) [VStr "log"; VStr "throw"; VStr "exit"]
                    eq_refl eq_refl)).
  - exact (proj1 (proj2 (policy_actions_fixed_order (sample_runtime false)
                           (VObj 0%nat) (Error "boom") sample_worker (VNum 0)
                           null
                           (policy_world "exit" [VStr "exit"; VStr "log"]))
                    (VArr 1%nat) [VStr "exit"; VStr "log"]
                    eq_refl eq_refl)).
Defined.

(** ** C2: the generic notification *)


(** The same from construction on, with the singular policy [exit]: the
    coordinator forks its two workers, and the first worker exit terminates
    it without an [exit] notification. *)
Example worker_exit_with_exit_policy :
  let rt := sample_runtime true in
  let r := started_then rt [VFun 0%nat; VNum 2; VObj 1%nat] ["exit"]
             (λ evOpts, exit evOpts sample_worker (VNum 1) null)
             singular_exit_world in
  r.1 = Exited
  ∧ trace r.2 =
    [super_on "exit" (VFun 0%nat)]
    ++ fork_effects sample_worker
    ++ fork_effects {| worker_id := 2; worker_pid := 5002 |}
    ++ [cluster_on_exit (VObj 2%nat); process_exit].
Proof. split; vm_compute; reflexivity. Qed.



(** ** C3: the empty error policy *)


(** The same from construction on: a worker built with
    [{events: {error: []}}] on which nothing is subscribed registers the
    handler and listens; an uncaught error then reaches the [emit], which
    throws it. *)
Example uncaught_error_without_listener :
  let rt := sample_runtime false in
  let r := started_then rt [VFun 0%nat; VObj 1%nat] []
             (λ evOpts, handler rt evOpts (Error "boom"))
             empty_policy_world in
  r.1 = Throw (Error "boom")
  ∧ trace r.2 =
    [process_on_uncaughtException (VObj 2%nat);
     createServer false undefined (VFun 0%nat);
     server_listen (VNum 8080) undefined undefined undefined;
     emit_error (Error "boom") 4242].
Proof. split; vm_compute; reflexivity. Qed.



(** The same from construction on: a worker built with
    [{events: {error: []}}] and given a listener of [error] registers the
    handler and listens; an uncaught error then adds the one notification,
    and the handler returns. *)
Example uncaught_error_with_empty_policy :
  let rt := sample_runtime false in
  let r := started_then rt [VFun 0%nat; VObj 1%nat] ["error"]
             (λ evOpts, handler rt evOpts (Error "boom"))
             empty_policy_world in
  r.1 = Ret tt
  ∧ trace r.2 =
    [super_on "error" (VFun 0%nat);
     process_on_uncaughtException (VObj 2%nat);
     createServer false undefined (VFun 0%nat);
     server_listen (VNum 8080) undefined undefined undefined;
     emit_error (Error "boom") 4242].
Proof. split; vm_compute; reflexivity. Qed.

(** ** C4: construction without an invocable first argument *)

(** C4: when the first argument is missing or is not a function, the
    constructor throws at once and leaves the world as it was: nothing is
    allocated, forked or listened on. *)
Theorem constructor_requires_function (rt : runtime) (args : list value)
    (w : world) :
  typeof (nth_arg args 0) ≠ "function" →
  constructor rt args w = (Throw (Error "Target app is not specified"), w).
Proof.
  intros Hty. unfold constructor.
  destruct (String.eqb (typeof (nth_arg args 0)) "function") eqn:E.
  - apply String.eqb_eq in E. contradiction.
  - reflexivity.
Qed.

Lemma constructor_requires_function_witness :
  constructor (sample_runtime true) [] (World [] [] 0) =
    (Throw (Error "Target app is not specified"), World [] [] 0)
  ∧ constructor (sample_runtime true) [VStr "app"; VNum 4] (World [] [] 0) =
    (Throw (Error "Target app is not specified"), World [] [] 0).
Proof.
  split.
  - apply (constructor_requires_function (sample_runtime true) []).
    vm_compute. discriminate.
  - apply (constructor_requires_function (sample_runtime true)
             [VStr "app"; VNum 4]).
    vm_compute. discriminate.
Defined.

(** ** Stepping through [normalizeOptions] *)

Lemma lookup_snoc_here {A} (l : list A) (x : A) (t : list A) :
  (l ++ x :: t) !! length l = Some x.
Proof. by rewrite list_lookup_middle. Qed.

Lemma insert_snoc_here {A} (l : list A) (x y : A) (t : list A) :
  <[length l := y]> (l ++ x :: t) = l ++ y :: t.
Proof. by rewrite insert_app_r_alt, Nat.sub_diag. Qed.

Lemma new_object_run (h : list cell) (tr : list effect) (n : nat) :
  new_object (World h tr n) =
  (Ret (VObj (length h)), World (h ++ [empty_object]) tr n).
Proof. reflexivity. Qed.

Lemma new_array_run (l : list value) (h : list cell) (tr : list effect)
    (n : nat) :
  new_array l (World h tr n) =
  (Ret (VArr (length h)), World (h ++ [array_of l]) tr n).
Proof. reflexivity. Qed.

Lemma get_prop_run (l : loc) (k : string) (c : cell) (h : list cell)
    (tr : list effect) (n : nat) :
  h !! l = Some c →
  get_prop (VObj l) k (World h tr n) =
  (Ret (default undefined (props c !! k)), World h tr n).
Proof. intros H. by rewrite (get_prop_obj l k c). Qed.

Lemma set_prop_run (l : loc) (k : string) (v : value) (c : cell)
    (h : list cell) (tr : list effect) (n : nat) :
  h !! l = Some c →
  set_prop (VObj l) k v (World h tr n) =
  (Ret tt, World (<[l := Cell (elems c) (<[k:=v]> (props c))]> h) tr n).
Proof.
  intros H. unfold set_prop, read, write. rewrite bind_unfold. simpl.
  rewrite H. reflexivity.
Qed.

Lemma for_in_keys_run (l : loc) (c : cell) (h : list cell)
    (tr : list effect) (n : nat) :
  h !! l = Some c →
  for_in_keys (VObj l) (World h tr n) =
  (Ret (map_to_list (props c)).*1, World h tr n).
Proof.
  intros H. unfold for_in_keys, read. rewrite bind_unfold. simpl.
  rewrite H. reflexivity.
Qed.

Lemma ret_run {A} (a : A) (w : world) : (mret a : M A) w = (Ret a, w).
Proof. reflexivity. Qed.

Lemma lookup_insert_snoc_here {A} (l t : list A) (i : nat) (x y : A) :
  (<[i:=x]> l ++ y :: t) !! length l = Some y.
Proof.
  replace (length l) with (length (<[i:=x]> l)) by apply length_insert.
  apply lookup_snoc_here.
Qed.

Lemma lookup_app_plus {A} (l t : list A) (i : nat) :
  (l ++ t) !! (length l + i)%nat = t !! i.
Proof. rewrite lookup_app_r by lia. f_equal. lia. Qed.

Ltac heap_lookup :=
  first [ eassumption
        | apply lookup_snoc_here
        | rewrite lookup_app_plus; reflexivity ].

Ltac mrun1 :=
  first [ rewrite ret_run
        | rewrite new_object_run
        | rewrite new_array_run
        | erewrite get_prop_run by heap_lookup
        | erewrite set_prop_run by heap_lookup
        | erewrite for_in_keys_run by heap_lookup
        | rewrite bind_unfold ];
  cbn beta iota.

Lemma default_field_run (lo : loc) (k : string) (co : cell) (h : list cell)
    (tr : list effect) (n : nat) :
  h !! lo = Some co →
  default_field (VObj lo) k (World h tr n) =
  if truthy (default undefined (props co !! k)) then (Ret tt, World h tr n)
  else (Ret tt,
        World (<[lo := Cell (elems co) (<[k := VObj (length h)]> (props co))]> h
                 ++ [empty_object]) tr n).
Proof.
  intros Hlo. unfold default_field. do 2 mrun1.
  destruct (truthy (default undefined (props co !! k))); cbn [negb].
  - reflexivity.
  - mrun1. mrun1.
    erewrite set_prop_run by (apply lookup_app_l_Some; eassumption).
    rewrite insert_app_l by (eapply lookup_lt_Some; eassumption).
    reflexivity.
Qed.

Lemma wrap_entry_run (lo le : loc) (key : string) (co ce : cell)
    (h : list cell) (tr : list effect) (n : nat) :
  h !! lo = Some co →
  props co !! "events" = Some (VObj le) →
  h !! le = Some ce →
  wrap_entry (VObj lo) key (World h tr n) =
  if isArray (default undefined (props ce !! key)) then (Ret tt, World h tr n)
  else (Ret tt,
        World (<[le := Cell (elems ce)
                         (<[key := VArr (length h)]> (props ce))]> h
                 ++ [array_of [default undefined (props ce !! key)]]) tr n).
Proof.
  intros Hlo Hev Hle. unfold wrap_entry.
  do 2 mrun1. rewrite Hev. cbn [default from_option id]. do 2 mrun1.
  destruct (isArray (default undefined (props ce !! key))); cbn [negb].
  - reflexivity.
  - repeat (mrun1; rewrite ?Hev; cbn [default from_option id]).
    erewrite set_prop_run by (apply lookup_app_l_Some; eassumption).
    rewrite insert_app_l by (eapply lookup_lt_Some; eassumption).
    reflexivity.
Qed.

(** The loop of [normalizeOptions] over a duplicate-free list of keys. *)
Lemma wrap_loop (lo le : loc) (co : cell) (tr : list effect) (n : nat)
    (ks : list string) :
  lo ≠ le →
  props co !! "events" = Some (VObj le) →
  NoDup ks →
  ∀ (h : list cell) (ce : cell),
    h !! lo = Some co →
    h !! le = Some ce →
    ∃ h' ce',
      for_each ks (wrap_entry (VObj lo)) (World h tr n)
        = (Ret tt, World h' tr n)
      ∧ h' !! le = Some ce'
      ∧ elems ce' = elems ce
      ∧ (∀ l c, h !! l = Some c → l ≠ le → h' !! l = Some c)
      ∧ (∀ k, k ∉ ks → props ce' !! k = props ce !! k)
      ∧ (∀ k, k ∈ ks →
           let v := default undefined (props ce !! k) in
           if isArray v then props ce' !! k = Some v
           else ∃ la, props ce' !! k = Some (VArr la)
                  ∧ h' !! la = Some (array_of [v])).
Proof.
  intros Hne Hev Hnd. induction Hnd as [|k ks Hk Hnd IH]; intros h ce Hlo Hle.
  - exists h, ce. cbn [for_each]. repeat split; try done.
    intros k Hk. by apply elem_of_nil in Hk.
  - cbn [for_each]. mrun1.
    rewrite (wrap_entry_run lo le k co ce h tr n Hlo Hev Hle).
    destruct (isArray (default undefined (props ce !! k))) eqn:Harr.
    + cbn beta iota. destruct (IH h ce Hlo Hle) as (h' & ce' & Hrun & Hle' & Hel & Hfr & Hout & Hin).
      exists h', ce'. repeat split; try done.
      * intros k' Hk'. apply Hout. set_solver.
      * intros k' Hk'. apply elem_of_cons in Hk' as [->|Hk'].
        -- cbv zeta. rewrite Harr. rewrite Hout by done.
           destruct (props ce !! k) eqn:E; [done|]. done.
        -- by apply Hin.
    + cbn beta iota.
      set (ce1 := Cell (elems ce) (<[k := VArr (length h)]> (props ce))).
      set (h1 := <[le := ce1]> h ++ [array_of [default undefined (props ce !! k)]]).
      assert (Hlt : (le < length h)%nat) by (eapply lookup_lt_Some; eassumption).
      assert (Hlo1 : h1 !! lo = Some co).
      { subst h1. apply lookup_app_l_Some. by rewrite list_lookup_insert_ne. }
      assert (Hle1 : h1 !! le = Some ce1).
      { subst h1. apply lookup_app_l_Some. by rewrite list_lookup_insert_eq. }
      destruct (IH h1 ce1 Hlo1 Hle1) as (h' & ce' & Hrun & Hle' & Hel & Hfr & Hout & Hin).
      exists h', ce'. repeat split; try done.
      * intros l c Hl Hlne. apply Hfr; [|done]. subst h1.
        apply lookup_app_l_Some. by rewrite list_lookup_insert_ne.
      * intros k' Hk'. rewrite Hout by set_solver. subst ce1. cbn [props].
        rewrite lookup_insert_ne; [done|]. set_solver.
      * intros k' Hk'. apply elem_of_cons in Hk' as [->|Hk'].
        -- cbv zeta. rewrite Harr. exists (length h). split.
           ++ rewrite Hout by done. subst ce1. cbn [props]. by rewrite lookup_insert_eq.
           ++ apply Hfr; [|lia]. subst h1.
              replace (length h) with (length (<[le:=ce1]> h)) at 1 by apply length_insert.
              apply lookup_snoc_here.
        -- specialize (Hin k' Hk'). cbv zeta in Hin. subst ce1. cbn [props] in Hin.
           rewrite lookup_insert_ne in Hin; [done|]. intros ->. done.
Qed.

Lemma with_default_instances_options rt cls :
  options (with_default_instances rt cls) = options cls.
Proof. unfold with_default_instances. by destruct (truthy (instances cls)). Qed.

Lemma with_default_instances_idem rt cls :
  with_default_instances rt (with_default_instances rt cls)
  = with_default_instances rt cls.
Proof.
  unfold with_default_instances.
  destruct (truthy (instances cls)) eqn:E; rewrite ?E; [done|].
  cbn [instances set_instances].
  by destruct (truthy (VNum (Z.of_nat (cpus_length rt)))).
Qed.

Lemma wrap_loop_noop (lo le : loc) (co ce : cell) (h : list cell)
    (tr : list effect) (n : nat) (ks : list string) :
  h !! lo = Some co →
  props co !! "events" = Some (VObj le) →
  h !! le = Some ce →
  (∀ k, k ∈ ks → isArray (default undefined (props ce !! k)) = true) →
  for_each ks (wrap_entry (VObj lo)) (World h tr n) = (Ret tt, World h tr n).
Proof.
  intros Hlo Hev Hle. induction ks as [|k ks IH]; intros Harr; [done|].
  cbn [for_each]. mrun1.
  rewrite (wrap_entry_run lo le k co ce h tr n Hlo Hev Hle).
  rewrite Harr by set_solver. cbn beta iota. apply IH.
  intros k' Hk'. apply Harr. set_solver.
Qed.

(** [normalizeOptions] on an options object (not the events object itself). *)
Lemma normalize_object (rt : runtime) (cls : Cluster) (lo : loc) (co : cell)
    (h : list cell) (tr : list effect) (n : nat) :
  options cls = VObj lo →
  h !! lo = Some co →
  normalizeOptions rt cls (World h tr n) =
  (default_field (VObj lo) "events";;
   default_field (VObj lo) "listen";;
   wrap_entries (VObj lo);;
   mret (with_default_instances rt cls)) (World h tr n).
Proof.
  intros Hopt Hlo. unfold normalizeOptions, with_default_instances.
  rewrite Hopt. cbn [truthy negb]. mrun1. mrun1.
  destruct (truthy (instances cls)); cbn [negb]; mrun1; mrun1; reflexivity.
Qed.

(** [normalizeOptions] on an options object that has its events object,
    with the [listen] it fills in. *)
Lemma normalize_existing_listen (rt : runtime) (cls : Cluster) (lo le : loc)
    (co ce : cell) (h : list cell) (tr : list effect) (n : nat) :
  options cls = VObj lo →
  h !! lo = Some co →
  props co !! "events" = Some (VObj le) →
  lo ≠ le →
  h !! le = Some ce →
  ∃ h' co' ce',
    normalizeOptions rt cls (World h tr n)
      = (Ret (with_default_instances rt cls), World h' tr n)
    ∧ h' !! lo = Some co'
    ∧ props co' !! "events" = Some (VObj le)
    ∧ truthy (default undefined (props co' !! "listen")) = true
    ∧ (∀ k, k ≠ "listen" → props co' !! k = props co !! k)
    ∧ (truthy (default undefined (props co !! "listen")) = true → co' = co)
    ∧ h' !! le = Some ce'
    ∧ elems ce' = elems ce
    ∧ (∀ l c, h !! l = Some c → l ≠ lo → l ≠ le → h' !! l = Some c)
    ∧ (∀ k, props ce !! k = None → props ce' !! k = None)
    ∧ (∀ k v, props ce !! k = Some v →
         if isArray v then props ce' !! k = Some v
         else ∃ la, props ce' !! k = Some (VArr la)
                ∧ h' !! la = Some (array_of [v]))
    ∧ elems co' = elems co
    ∧ (truthy (default undefined (props co !! "listen")) = false →
       props co' !! "listen" = Some (VObj (length h))
       ∧ h' !! length h = Some empty_object).
Proof.
  intros Hopt Hlo Hev Hne Hle.
  rewrite (normalize_object rt cls lo co h tr n Hopt Hlo).
  mrun1. rewrite (default_field_run lo "events" co h tr n Hlo), Hev.
  cbn [default from_option id truthy]. cbn beta iota.
  mrun1. rewrite (default_field_run lo "listen" co h tr n Hlo).
  set (li := default undefined (props co !! "listen")).
  assert (Hlolt : (lo < length h)%nat) by (eapply lookup_lt_Some; eassumption).
  assert (Hlelt : (le < length h)%nat) by (eapply lookup_lt_Some; eassumption).
  (* the store and the options object once [listen] is there *)
  set (co1 := if truthy li then co
              else Cell (elems co) (<["listen" := VObj (length h)]> (props co))).
  set (h1 := if truthy li then h else <[lo := co1]> h ++ [empty_object]).
  assert (Hrun1 : (if truthy li then (Ret tt, World h tr n)
                   else (Ret (),
                         World (<[lo:=Cell (elems co)
                                   (<["listen":=VObj (length h)]> (props co))]> h
                                ++ [empty_object]) tr n))
                  = (Ret tt, World h1 tr n)).
  { subst h1 co1. by destruct (truthy li). }
  rewrite Hrun1. clear Hrun1. cbn beta iota.
  assert (Hlo1 : h1 !! lo = Some co1).
  { subst h1 co1. destruct (truthy li); [done|].
    apply lookup_app_l_Some. by rewrite list_lookup_insert_eq. }
  assert (Hle1 : h1 !! le = Some ce).
  { subst h1. destruct (truthy li); [done|].
    apply lookup_app_l_Some. by rewrite list_lookup_insert_ne. }
  assert (Hev1 : props co1 !! "events" = Some (VObj le)).
  { subst co1. destruct (truthy li); [done|]. cbn [props].
    by rewrite lookup_insert_ne. }
  assert (Hli1 : truthy (default undefined (props co1 !! "listen")) = true).
  { subst co1. destruct (truthy li) eqn:E; [done|]. cbn [props].
    by rewrite lookup_insert_eq. }
  mrun1. unfold wrap_entries. do 2 mrun1. rewrite Hev1.
  cbn [default from_option id]. do 2 mrun1.
  destruct (wrap_loop lo le co1 tr n (map_to_list (props ce)).*1 Hne Hev1
              (NoDup_fst_map_to_list _) h1 ce Hlo1 Hle1)
    as (h' & ce' & Hrun & Hle' & Hel & Hfr & Hout & Hin).
  rewrite Hrun. cbn beta iota.
  exists h', co1, ce'. split; [reflexivity|].
  split. { by apply Hfr. }
  split; [done|]. split; [done|].
  split. { intros k Hk. subst co1. destruct (truthy li); [done|]. cbn [props].
           by rewrite lookup_insert_ne. }
  split. { intros Ht. subst co1. by rewrite Ht. }
  split; [done|]. split; [done|].
  split. { intros l c Hl Hl1 Hl2. apply Hfr; [|done]. subst h1.
           destruct (truthy li); [done|]. apply lookup_app_l_Some.
           by rewrite list_lookup_insert_ne. }
  split.
  { intros k Hk. rewrite Hout; [done|]. intros Hin'.
    apply list_elem_of_fmap in Hin' as ([k' v] & -> & Hkv).
    apply elem_of_map_to_list in Hkv. cbn in Hk. congruence. }
  split.
  { intros k v Hk.
    assert (Hmem : k ∈ (map_to_list (props ce)).*1).
    { apply list_elem_of_fmap. exists (k, v). split; [done|].
      by apply elem_of_map_to_list. }
    specialize (Hin k Hmem). cbv zeta in Hin. rewrite Hk in Hin.
    cbn [default from_option id] in Hin. exact Hin. }
  split.
  { subst co1. by destruct (truthy li). }
  intros Hfalsy. subst co1 h1. rewrite Hfalsy in *. split.
  - cbn [props]. by rewrite lookup_insert_eq.
  - apply Hfr; [|lia]. apply lookup_insert_snoc_here.
Qed.

Lemma normalize_existing (rt : runtime) (cls : Cluster) (lo le : loc)
    (co ce : cell) (h : list cell) (tr : list effect) (n : nat) :
  options cls = VObj lo →
  h !! lo = Some co →
  props co !! "events" = Some (VObj le) →
  lo ≠ le →
  h !! le = Some ce →
  ∃ h' co' ce',
    normalizeOptions rt cls (World h tr n)
      = (Ret (with_default_instances rt cls), World h' tr n)
    ∧ h' !! lo = Some co'
    ∧ props co' !! "events" = Some (VObj le)
    ∧ truthy (default undefined (props co' !! "listen")) = true
    ∧ (∀ k, k ≠ "listen" → props co' !! k = props co !! k)
    ∧ (truthy (default undefined (props co !! "listen")) = true → co' = co)
    ∧ h' !! le = Some ce'
    ∧ elems ce' = elems ce
    ∧ (∀ l c, h !! l = Some c → l ≠ lo → l ≠ le → h' !! l = Some c)
    ∧ (∀ k, props ce !! k = None → props ce' !! k = None)
    ∧ (∀ k v, props ce !! k = Some v →
         if isArray v then props ce' !! k = Some v
         else ∃ la, props ce' !! k = Some (VArr la)
                ∧ h' !! la = Some (array_of [v])).
Proof.
  intros Hopt Hlo Hev Hne Hle.
  destruct (normalize_existing_listen rt cls lo le co ce h tr n)
    as (h' & co' & ce' & H1 & H2 & H3 & H4 & H5 & H6 & H7 & H8 & H9 & H10
          & H11 & _); try done.
  by exists h', co', ce'.
Qed.

(** Once normalized, an options object is left as it is. *)
Lemma normalize_stable (rt : runtime) (cls : Cluster) (lo le : loc)
    (co ce : cell) (h : list cell) (tr : list effect) (n : nat) :
  options cls = VObj lo →
  h !! lo = Some co →
  props co !! "events" = Some (VObj le) →
  truthy (default undefined (props co !! "listen")) = true →
  h !! le = Some ce →
  (∀ k v, props ce !! k = Some v → isArray v = true) →
  normalizeOptions rt cls (World h tr n)
    = (Ret (with_default_instances rt cls), World h tr n).
Proof.
  intros Hopt Hlo Hev Hli Hle Harr.
  rewrite (normalize_object rt cls lo co h tr n Hopt Hlo).
  mrun1. rewrite (default_field_run lo "events" co h tr n Hlo), Hev.
  cbn [default from_option id truthy]. cbn beta iota.
  mrun1. rewrite (default_field_run lo "listen" co h tr n Hlo), Hli.
  cbn beta iota.
  mrun1. unfold wrap_entries. do 2 mrun1. rewrite Hev.
  cbn [default from_option id]. do 2 mrun1.
  rewrite (wrap_loop_noop lo le co ce h tr n _ Hlo Hev Hle).
  - reflexivity.
  - intros k Hk. apply list_elem_of_fmap in Hk as ([k' v] & -> & Hkv).
    apply elem_of_map_to_list in Hkv. cbn [fst]. rewrite Hkv.
    cbn [default from_option id]. by eapply Harr.
Qed.

(** [normalizeOptions] on an options object without [events]. *)
Lemma normalize_missing_events (rt : runtime) (cls : Cluster) (lo : loc)
    (co : cell) (h : list cell) (tr : list effect) (n : nat) :
  options cls = VObj lo →
  h !! lo = Some co →
  truthy (default undefined (props co !! "events")) = false →
  normalizeOptions rt cls (World h tr n) =
  (Ret (with_default_instances rt cls),
   World
     (let co1 := Cell (elems co) (<["events" := VObj (length h)]> (props co)) in
      if truthy (default undefined (props co !! "listen"))
      then <[lo := co1]> h ++ [empty_object]
      else <[lo := Cell (elems co)
                     (<["listen" := VObj (length h + 1)%nat]> (props co1))]> h
             ++ [empty_object; empty_object])
     tr n).
Proof.
  intros Hopt Hlo Hev.
  assert (Hlolt : (lo < length h)%nat) by (eapply lookup_lt_Some; eassumption).
  rewrite (normalize_object rt cls lo co h tr n Hopt Hlo).
  mrun1. rewrite (default_field_run lo "events" co h tr n Hlo), Hev.
  cbn beta iota.
  set (co1 := Cell (elems co) (<["events" := VObj (length h)]> (props co))).
  assert (Hlo1 : (<[lo:=co1]> h ++ [empty_object]) !! lo = Some co1).
  { apply lookup_app_l_Some. by rewrite list_lookup_insert_eq. }
  mrun1. rewrite (default_field_run lo "listen" co1 _ tr n Hlo1).
  subst co1. cbn [props elems]. rewrite lookup_insert_ne by done.
  set (co1 := Cell (elems co) (<["events" := VObj (length h)]> (props co))).
  destruct (truthy (default undefined (props co !! "listen"))); cbn beta iota zeta.
  - mrun1. unfold wrap_entries. do 2 mrun1. subst co1. cbn [props].
    rewrite lookup_insert_eq. cbn [default from_option id].
    mrun1. erewrite for_in_keys_run by apply lookup_insert_snoc_here.
    cbn beta iota.
    cbn [props empty_object]. rewrite map_to_list_empty.
    cbn [fmap list_fmap for_each]. reflexivity.
  - rewrite insert_app_l by (rewrite length_insert; lia).
    rewrite list_insert_insert_eq. rewrite length_app, length_insert.
    cbn [length]. rewrite <- app_assoc. cbn [Datatypes.app].
    mrun1. unfold wrap_entries. mrun1.
    erewrite get_prop_run
      by (apply lookup_app_l_Some; by rewrite list_lookup_insert_eq).
    cbn beta iota. cbn [props]. rewrite lookup_insert_ne by done.
    rewrite lookup_insert_eq. cbn [default from_option id].
    mrun1. erewrite for_in_keys_run by apply lookup_insert_snoc_here.
    cbn beta iota. cbn [props empty_object]. rewrite map_to_list_empty.
    cbn [fmap list_fmap for_each]. reflexivity.
Qed.

(** An unset [options] is first replaced by a new empty object. *)
Lemma normalize_unset (rt : runtime) (cls : Cluster) (h : list cell)
    (tr : list effect) (n : nat) :
  truthy (options cls) = false →
  normalizeOptions rt cls (World h tr n) =
  normalizeOptions rt (set_options cls (VObj (length h)))
    (World (h ++ [empty_object]) tr n).
Proof.
  intros Hopt. unfold normalizeOptions.
  rewrite Hopt. cbn [options set_options truthy negb].
  do 3 mrun1. symmetry. do 2 mrun1. reflexivity.
Qed.

Lemma normalize_fresh (rt : runtime) (cls : Cluster) (h : list cell)
    (tr : list effect) (n : nat) :
  truthy (options cls) = false →
  normalizeOptions rt cls (World h tr n) =
  (Ret (with_default_instances rt (set_options cls (VObj (length h)))),
   World (h ++
            [Cell [] (<["listen" := VObj (length h + 2)%nat]>
                        (<["events" := VObj (length h + 1)%nat]> ∅));
             empty_object; empty_object])
         tr n).
Proof.
  intros Hopt. rewrite normalize_unset by done.
  rewrite (normalize_missing_events rt _ (length h) empty_object)
    by (try apply lookup_snoc_here; done).
  cbn [props elems empty_object]. rewrite !lookup_empty.
  cbn [default from_option id truthy]. cbv zeta.
  rewrite insert_snoc_here, length_app. cbn [length].
  rewrite <- app_assoc. cbn [Datatypes.app].
  by replace (length h + 1 + 1)%nat with (length h + 2)%nat by lia.
Qed.

(** What [normalizeOptions] does to the store, for an options object whose
    [events] is missing or is another plain object. *)
Lemma normalize_effect (rt : runtime) (cls : Cluster) (lo : loc) (co : cell)
    (h : list cell) (tr : list effect) (n : nat) :
  options cls = VObj lo →
  h !! lo = Some co →
  events_plain h lo co = true →
  ∃ h',
    normalizeOptions rt cls (World h tr n)
      = (Ret (with_default_instances rt cls), World h' tr n)
    ∧ (∀ l c, h !! l = Some c → l ≠ lo →
         props co !! "events" ≠ Some (VObj l) → h' !! l = Some c)
    ∧ normalizeOptions rt (with_default_instances rt cls) (World h' tr n)
      = (Ret (with_default_instances rt cls), World h' tr n).
Proof.
  intros Hopt Hlo Hplain. unfold events_plain in Hplain.
  assert (Hlolt : (lo < length h)%nat) by (eapply lookup_lt_Some; eassumption).
  destruct (truthy (default undefined (props co !! "events"))) eqn:Hev.
  - (* [events] is there: a plain object *)
    destruct (props co !! "events") as [ev|] eqn:Hev'; [|done].
    cbn [default from_option id] in Hplain, Hev.
    destruct ev as [| |b|k| |s|le|la|lf]; try done;
      try (rewrite Hev in Hplain; done).
    apply andb_prop in Hplain as [Hne Hsome].
    apply bool_decide_eq_true in Hne, Hsome. destruct Hsome as [ce Hle].
    destruct (normalize_existing rt cls lo le co ce h tr n)
      as (h' & co' & ce' & Hrun & Hlo' & Hev'' & Hli' & _ & _ & Hle' & _
            & Hfr & Hnone & Hsome); try done.
    exists h'. split; [done|]. split.
    + intros l c Hl Hl1 Hl2. apply Hfr; try done. congruence.
    + rewrite (normalize_stable rt _ lo le co' ce' h' tr n); try done.
      * by rewrite with_default_instances_idem.
      * by rewrite with_default_instances_options.
      * intros k v Hk. destruct (props ce !! k) as [v0|] eqn:Hk0.
        -- specialize (Hsome k v0 Hk0). destruct (isArray v0) eqn:Ha.
           ++ congruence.
           ++ destruct Hsome as (la & Hla & _). rewrite Hla in Hk.
              by injection Hk as <-.
        -- rewrite (Hnone k Hk0) in Hk. done.
  - (* [events] is missing *)
    rewrite (normalize_missing_events rt cls lo co h tr n Hopt Hlo Hev).
    eexists. split; [reflexivity|]. cbv zeta. split.
    + intros l c Hl Hl1 _.
      destruct (truthy (default undefined (props co !! "listen")));
        apply lookup_app_l_Some; by rewrite list_lookup_insert_ne.
    + destruct (truthy (default undefined (props co !! "listen"))) eqn:Hli.
      * erewrite (normalize_stable rt _ lo (length h) _ empty_object).
        -- by rewrite with_default_instances_idem.
        -- by rewrite with_default_instances_options.
        -- apply lookup_app_l_Some. by rewrite list_lookup_insert_eq.
        -- cbn [props]. by rewrite lookup_insert_eq.
        -- cbn [props]. by rewrite lookup_insert_ne.
        -- apply lookup_insert_snoc_here.
        -- intros k v Hk. cbn in Hk. by rewrite lookup_empty in Hk.
      * erewrite (normalize_stable rt _ lo (length h) _ empty_object).
        -- by rewrite with_default_instances_idem.
        -- by rewrite with_default_instances_options.
        -- apply lookup_app_l_Some. by rewrite list_lookup_insert_eq.
        -- cbn [props]. rewrite lookup_insert_ne by done.
           by rewrite lookup_insert_eq.
        -- cbn [props]. by rewrite lookup_insert_eq.
        -- apply lookup_insert_snoc_here.
        -- intros k v Hk. cbn in Hk. by rewrite lookup_empty in Hk.
Qed.

(** ** C5: normalization of the policy entries *)

(** C5: in the events object of the options, [normalizeOptions] replaces
    every entry that is not an array by a new one-element array holding that
    value, and leaves every entry that is an array as it is (the same
    reference, to an untouched array); every other object of the store is
    unchanged.  It returns normally, and normalizing the result again
    changes nothing: normalization is idempotent. *)
Theorem normalize_policy_entries (rt : runtime) (cls : Cluster) (lo le : loc)
    (co ce : cell) (w : world) :
  options cls = VObj lo →
  heap w !! lo = Some co →
  props co !! "events" = Some (VObj le) →
  lo ≠ le →
  heap w !! le = Some ce →
  ∃ cls' w' ce',
    normalizeOptions rt cls w = (Ret cls', w')
    ∧ heap w' !! le = Some ce'
    ∧ (∀ key v, props ce !! key = Some v →
         if isArray v then props ce' !! key = Some v
         else ∃ la, props ce' !! key = Some (VArr la)
                ∧ heap w' !! la = Some (array_of [v]))
    ∧ (∀ l c, heap w !! l = Some c → l ≠ lo → l ≠ le →
         heap w' !! l = Some c)
    ∧ normalizeOptions rt cls' w' = (Ret cls', w').
Proof.
  intros Hopt Hlo Hev Hne Hle. destruct w as [h tr n]. cbn [heap] in *.
  destruct (normalize_existing rt cls lo le co ce h tr n)
    as (h' & co' & ce' & Hrun & Hlo' & Hev' & Hli' & _ & _ & Hle' & _
          & Hfr & Hnone & Hsome); try done.
  exists (with_default_instances rt cls), (World h' tr n), ce'.
  cbn [heap]. repeat split; try done.
  rewrite (normalize_stable rt _ lo le co' ce' h' tr n); try done.
  - by rewrite with_default_instances_idem.
  - by rewrite with_default_instances_options.
  - intros k v Hk. destruct (props ce !! k) as [v0|] eqn:Hk0.
    + specialize (Hsome k v0 Hk0). destruct (isArray v0) eqn:Ha.
      * congruence.
      * destruct Hsome as (la & Hla & _). rewrite Hla in Hk.
        by injection Hk as <-.
    + rewrite (Hnone k Hk0) in Hk. done.
Qed.

Lemma normalize_policy_entries_witness :
  ∃ cls' w' ce',
    normalizeOptions (sample_runtime true) sample_cluster sample_options_world
      = (Ret cls', w')
    ∧ heap w' !! 2%nat = Some ce'
    ∧ (∀ key v,
         props sample_events !! key = Some v →
         if isArray v then props ce' !! key = Some v
         else ∃ la, props ce' !! key = Some (VArr la)
                ∧ heap w' !! la = Some (array_of [v]))
    ∧ (∀ l c, heap sample_options_world !! l = Some c → l ≠ 1%nat →
         l ≠ 2%nat → heap w' !! l = Some c)
    ∧ normalizeOptions (sample_runtime true) cls' w' = (Ret cls', w').
Proof.
  apply (normalize_policy_entries (sample_runtime true) sample_cluster
           1%nat 2%nat sample_options sample_events sample_options_world);
    [reflexivity | reflexivity | reflexivity | lia | reflexivity].
Defined.

(** ** C8: effects of normalization *)

(** C8, as stated, fails: after [new Cluster(app, options)] the caller's
    options object has a [listen] it did not have, and its [events.error],
    which was the string [log], is an array. *)
Lemma normalize_mutates_options_counterexample :
  let w := sample_options_world in
  let r := constructor (sample_runtime true) [VFun 0%nat; VObj 1%nat] w in
  (∃ c, r.1 = Ret c)
  ∧ (get_prop (VObj 1%nat) "listen" w).1 = Ret undefined
  ∧ (get_prop (VObj 1%nat) "listen" r.2).1 = Ret (VObj 4%nat)
  ∧ (get_prop (VObj 2%nat) "error" w).1 = Ret (VStr "log")
  ∧ (get_prop (VObj 2%nat) "error" r.2).1 = Ret (VArr 5%nat).
Proof. cbv zeta. split; [eexists|repeat split]; vm_compute; reflexivity. Qed.

(** C8 (amended): normalization works in place on the options object it is
    given.  It has no effect on the outside world (nothing is logged, forked
    or listened on), and the instance keeps that very object as its
    options.  In the store it gives the object an [events] and a [listen],
    each a new empty object, where the field was missing or falsy, and keeps
    the field otherwise (two new objects are distinct); the object's other
    fields are as they were.  In an events object that was there it replaces
    every entry that is not an array by a new one-element array holding the
    entry, keeps the arrays and adds no entry.  Every other object is
    unchanged, and normalizing the result a second time changes nothing
    more. *)
Theorem normalize_in_place (rt : runtime) (cls : Cluster) (lo : loc)
    (co : cell) (w : world) :
  options cls = VObj lo →
  heap w !! lo = Some co →
  events_plain (heap w) lo co = true →
  ∃ cls' w' co',
    normalizeOptions rt cls w = (Ret cls', w')
    ∧ trace w' = trace w
    ∧ forked w' = forked w
    ∧ options cls' = VObj lo
    ∧ heap w' !! lo = Some co'
    ∧ elems co' = elems co
    ∧ (∀ k, k ≠ "events" → k ≠ "listen" → props co' !! k = props co !! k)
    ∧ defaulted (heap w) (heap w')
        (props co !! "events") (props co' !! "events")
    ∧ defaulted (heap w) (heap w')
        (props co !! "listen") (props co' !! "listen")
    ∧ (truthy (default undefined (props co !! "events")) = false →
       truthy (default undefined (props co !! "listen")) = false →
       props co' !! "events" ≠ props co' !! "listen")
    ∧ (∀ le ce, props co !! "events" = Some (VObj le) →
         heap w !! le = Some ce →
         ∃ ce', heap w' !! le = Some ce'
                ∧ elems ce' = elems ce
                ∧ ∀ key, wrapped (heap w')
                           (props ce !! key) (props ce' !! key))
    ∧ (∀ l c, heap w !! l = Some c → l ≠ lo →
         props co !! "events" ≠ Some (VObj l) → heap w' !! l = Some c)
    ∧ normalizeOptions rt cls' w' = (Ret cls', w').
Proof.
  intros Hopt Hlo Hplain. destruct w as [h tr n]. cbn [heap trace forked] in *.
  destruct (normalize_effect rt cls lo co h tr n Hopt Hlo Hplain)
    as (h' & Hrun & Hfr & Hidem).
  exists (with_default_instances rt cls), (World h' tr n).
  cbn [heap trace forked].
  assert (Hlolt : (lo < length h)%nat) by (eapply lookup_lt_Some; eassumption).
  unfold events_plain in Hplain. unfold defaulted.
  destruct (truthy (default undefined (props co !! "events"))) eqn:Hev.
  - (* the events object is there *)
    destruct (props co !! "events") as [ev|] eqn:Hev'; [|done].
    cbn [default from_option id] in Hplain, Hev.
    destruct ev as [| |b|k| |s|le|la|lf]; try done;
      try (rewrite Hev in Hplain; done).
    apply andb_prop in Hplain as [Hne Hsome].
    apply bool_decide_eq_true in Hne, Hsome. destruct Hsome as [ce Hle].
    destruct (normalize_existing_listen rt cls lo le co ce h tr n)
      as (h'' & co' & ce' & Hrun' & Hlo' & Hev'' & Hli' & Hother & Hsame
            & Hle' & Hel & _ & Hnone & Hsome & Helo & Hfresh); try done.
    rewrite Hrun in Hrun'. injection Hrun' as <-.
    exists co'. split; [done|]. split; [done|]. split; [done|].
    split; [by rewrite with_default_instances_options|].
    split; [done|]. split; [done|].
    split. { intros k _ Hk. by apply Hother. }
    split; [done|].
    split.
    { destruct (truthy (default undefined (props co !! "listen"))) eqn:Hli.
      - by rewrite (Hsame eq_refl).
      - destruct (Hfresh eq_refl) as [Hnew Hempty].
        exists (length h). by repeat split. }
    split; [done|].
    split; [|by split].
    intros le0 ce0 [= <-] Hle0. rewrite Hle in Hle0. injection Hle0 as <-.
    exists ce'. split; [done|]. split; [done|].
    intros key. unfold wrapped.
    destruct (props ce !! key) as [v|] eqn:Hkey.
    + exact (Hsome key v Hkey).
    + by apply Hnone.
  - (* the events object is missing *)
    pose proof (normalize_missing_events rt cls lo co h tr n Hopt Hlo Hev)
      as Hrun'.
    rewrite Hrun in Hrun'. injection Hrun' as Hh'. cbv zeta in Hh'.
    destruct (truthy (default undefined (props co !! "listen"))) eqn:Hli.
    + exists (Cell (elems co) (<["events" := VObj (length h)]> (props co))).
      subst h'. split; [done|]. split; [done|]. split; [done|].
      split; [by rewrite with_default_instances_options|].
      split. { apply lookup_app_l_Some. by rewrite list_lookup_insert_eq. }
      split; [done|]. cbn [props].
      split. { intros k Hk _. by rewrite lookup_insert_ne. }
      split. { exists (length h). rewrite lookup_insert_eq.
               split; [done|]. split; [done|]. apply lookup_insert_snoc_here. }
      split. { by rewrite lookup_insert_ne. }
      split; [done|].
      split; [|by split].
      intros le ce Hsome. rewrite Hsome in Hev. done.
    + exists (Cell (elems co)
                (<["listen" := VObj (length h + 1)%nat]>
                   (<["events" := VObj (length h)]> (props co)))).
      subst h'. split; [done|]. split; [done|]. split; [done|].
      split; [by rewrite with_default_instances_options|].
      split. { apply lookup_app_l_Some. by rewrite list_lookup_insert_eq. }
      split; [done|]. cbn [props].
      split. { intros k Hk Hk'. by rewrite !lookup_insert_ne. }
      split. { exists (length h). rewrite lookup_insert_ne by done.
               rewrite lookup_insert_eq.
               split; [done|]. split; [done|]. apply lookup_insert_snoc_here. }
      split. { exists (length h + 1)%nat. rewrite lookup_insert_eq.
               split; [lia|]. split; [done|].
               rewrite lookup_app_r by (rewrite length_insert; lia).
               rewrite length_insert.
               by replace (length h + 1 - length h)%nat with 1%nat by lia. }
      split. { intros _ _. rewrite lookup_insert_eq.
               rewrite lookup_insert_ne by done. rewrite lookup_insert_eq.
               intros [=]. lia. }
      split; [|by split].
      intros le ce Hsome. rewrite Hsome in Hev. done.
Qed.

Lemma normalize_in_place_witness :
  ∃ cls' w' co',
    normalizeOptions (sample_runtime true) sample_cluster sample_options_world
      = (Ret cls', w')
    ∧ trace w' = []
    ∧ forked w' = 0%nat
    ∧ options cls' = VObj 1%nat
    ∧ heap w' !! 1%nat = Some co'
    ∧ elems co' = []
    ∧ (∀ k, k ≠ "events" → k ≠ "listen" →
         props co' !! k = props sample_options !! k)
    ∧ defaulted (heap sample_options_world) (heap w')
        (props sample_options !! "events") (props co' !! "events")
    ∧ defaulted (heap sample_options_world) (heap w')
        (props sample_options !! "listen") (props co' !! "listen")
    ∧ (truthy (default undefined (props sample_options !! "events")) = false →
       truthy (default undefined (props sample_options !! "listen")) = false →
       props co' !! "events" ≠ props co' !! "listen")
    ∧ (∀ le ce, props sample_options !! "events" = Some (VObj le) →
         heap sample_options_world !! le = Some ce →
         ∃ ce', heap w' !! le = Some ce'
                ∧ elems ce' = elems ce
                ∧ ∀ key, wrapped (heap w')
                           (props ce !! key) (props ce' !! key))
    ∧ (∀ l c, heap sample_options_world !! l = Some c → l ≠ 1%nat →
         props sample_options !! "events" ≠ Some (VObj l) →
         heap w' !! l = Some c)
    ∧ normalizeOptions (sample_runtime true) cls' w' = (Ret cls', w').
Proof.
  apply (normalize_in_place (sample_runtime true) sample_cluster 1%nat
           sample_options sample_options_world);
    reflexivity.
Defined.

(** ** Stepping through [start] *)

Lemma perform_run (e : effect) (h : list cell) (tr : list effect) (n : nat) :
  perform e (World h tr n) = (Ret tt, World h (tr ++ [e]) n).
Proof. reflexivity. Qed.

Lemma get_prop_read (l : loc) (k : string) (h : list cell)
    (tr : list effect) (n : nat) :
  get_prop (VObj l) k (World h tr n) =
  (Ret (default undefined (props (default empty_object (h !! l)) !! k)),
   World h tr n).
Proof. reflexivity. Qed.

Lemma less_than_run (rt : runtime) (i : Z) (v : value) (h : list cell)
    (tr : list effect) (n : nat) :
  less_than rt i v (World h tr n) =
  (Ret (match ToNumber rt h v with Some k => Z.ltb i k | None => false end),
   World h tr n).
Proof. reflexivity. Qed.

Lemma fork_run (rt : runtime) (this : Cluster) (h : list cell)
    (tr : list effect) (n : nat) :
  fork rt this (World h tr n) =
  (Ret tt,
   World h (tr ++ fork_effects {| worker_id := S n;
                                  worker_pid := child_pid rt (S n) |}) (S n)).
Proof.
  unfold fork, cluster_fork_call, fork_effects.
  rewrite bind_unfold. cbn beta iota. cbn [heap trace forked].
  rewrite bind_unfold, perform_run. cbn beta iota. rewrite perform_run.
  by rewrite <- !app_assoc.
Qed.

Lemma workers_S (rt : runtime) (base m : nat) :
  workers rt base (S m) =
  {| worker_id := S base; worker_pid := child_pid rt (S base) |}
    :: workers rt (S base) m.
Proof. reflexivity. Qed.

(** The loop forks once per value of [i] below the number [k] that
    [this.instances] converts to; any fuel from the number of iterations on
    gives the same run. *)
Lemma fork_loop_run (rt : runtime) (this : Cluster) (k : Z) (h : list cell)
    (fuel : nat) :
  ToNumber rt h (instances this) = Some k →
  ∀ (i : Z) (tr : list effect) (n : nat),
    (Z.to_nat (k - i) ≤ fuel)%nat →
    fork_loop rt fuel i this (World h tr n) =
    (Ret tt,
     World h (tr ++ flat_map fork_effects (workers rt n (Z.to_nat (k - i))))
       (n + Z.to_nat (k - i))).
Proof.
  intros Hk. induction fuel as [|fuel IH]; intros i tr n Hfuel.
  - cbn [fork_loop]. replace (Z.to_nat (k - i)) with 0%nat by lia.
    cbn. by rewrite app_nil_r, Nat.add_0_r.
  - cbn [fork_loop]. rewrite bind_unfold, less_than_run, Hk. cbn beta iota.
    destruct (Z.ltb_spec i k) as [Hlt|Hge].
    + rewrite bind_unfold, fork_run. cbn beta iota.
      rewrite IH by lia.
      replace (Z.to_nat (k - i)) with (S (Z.to_nat (k - (i + 1)))) by lia.
      rewrite workers_S. cbn [flat_map].
      rewrite <- app_assoc. do 2 f_equal. lia.
    + replace (Z.to_nat (k - i)) with 0%nat by lia.
      cbn. by rewrite app_nil_r, Nat.add_0_r.
Qed.

(** When [this.instances] is not a number ([NaN] after conversion) the loop
    body never runs. *)
Lemma fork_loop_nan (rt : runtime) (this : Cluster) (h : list cell)
    (fuel : nat) (i : Z) (tr : list effect) (n : nat) :
  ToNumber rt h (instances this) = None →
  fork_loop rt fuel i this (World h tr n) = (Ret tt, World h tr n).
Proof.
  intros Hk. destruct fuel as [|fuel]; [done|].
  cbn [fork_loop]. by rewrite bind_unfold, less_than_run, Hk.
Qed.

(** The fuel [start] gives the loop is enough: more fuel, same run. *)
Lemma fork_loop_fuel (rt : runtime) (this : Cluster) (fuel : nat)
    (h : list cell) (tr : list effect) (n : nat) :
  let bound := match ToNumber rt h (instances this) with
               | Some k => Z.to_nat k
               | None => 0%nat
               end in
  (bound ≤ fuel)%nat →
  fork_loop rt fuel 0 this (World h tr n)
  = fork_loop rt bound 0 this (World h tr n).
Proof.
  cbv zeta. destruct (ToNumber rt h (instances this)) as [k|] eqn:Hk.
  - intros Hfuel.
    rewrite !(fork_loop_run rt this k h _ Hk) by (rewrite Z.sub_0_r; lia).
    reflexivity.
  - intros _. by rewrite !fork_loop_nan.
Qed.




Lemma start_worker_run (rt : runtime) (this : Cluster) (lo ll : loc)
    (co cl : cell) (h : list cell) (tr : list effect) (n : nat) :
  isPrimary rt = false →
  options this = VObj lo →
  h !! lo = Some co →
  props co !! "listen" = Some (VObj ll) →
  h !! ll = Some cl →
  start rt this (World h tr n) =
  (Ret tt,
   World h
     (tr ++ [process_on_uncaughtException
               (default undefined (props co !! "events"));
             createServer (truthy (default undefined (props co !! "isHttps")))
               (default undefined (props co !! "advanced")) (app this);
             server_listen
               (if truthy (default undefined (props cl !! "port"))
                then default undefined (props cl !! "port") else VNum 8080)
               (default undefined (props cl !! "hostname"))
               (default undefined (props cl !! "backlog"))
               (default undefined (props cl !! "listeningListener"))])
     n).
Proof.
  intros Hprim Hopt Hlo Hli Hll. unfold start. rewrite Hprim, Hopt.
  repeat (rewrite bind_unfold, ?get_prop_read, ?perform_run; cbn beta iota;
          rewrite ?Hlo; cbn [default from_option id]; rewrite ?Hli;
          cbn [default from_option id]; rewrite ?Hll;
          cbn [default from_option id]).
  by rewrite <- !app_assoc.
Qed.

(** The constructor, once the first argument is a function. *)
Lemma constructor_run (rt : runtime) (f : loc) (rest : list value) (w : world) :
  constructor rt (VFun f :: rest) w =
  normalizeOptions rt
    (let nextArg := nth_arg (VFun f :: rest) 1 in
     let lastArg := nth_arg (VFun f :: rest) 2 in
     let this := {| options := undefined; app := VFun f;
                    instances := undefined |} in
     if truthy nextArg then
       if truthy lastArg
       then set_instances (set_options this lastArg) nextArg
       else if String.eqb (typeof nextArg) "number"
            then set_instances this nextArg
            else set_options this nextArg
     else this) w.
Proof. reflexivity. Qed.



(** ** C9: the fork loop *)



(** ** C7: the roles of the second and third argument *)

(** With a truthy second and third argument, the second is the worker count
    and the third the options. *)
Lemma constructor_three_arguments (rt : runtime) (f : loc)
    (nextArg lastArg : value) (w : world) :
  truthy nextArg = true →
  truthy lastArg = true →
  constructor rt [VFun f; nextArg; lastArg] w =
  normalizeOptions rt
    {| options := lastArg; app := VFun f; instances := nextArg |} w.
Proof.
  intros Hnext Hlast. rewrite constructor_run. cbv zeta.
  change (nth_arg [VFun f; nextArg; lastArg] 1) with nextArg.
  change (nth_arg [VFun f; nextArg; lastArg] 2) with lastArg.
  by rewrite Hnext, Hlast.
Qed.

(** With two arguments, a truthy number is the worker count and any other
    truthy value the options. *)
Lemma constructor_two_arguments (rt : runtime) (f : loc) (nextArg : value)
    (w : world) :
  truthy nextArg = true →
  constructor rt [VFun f; nextArg] w =
  normalizeOptions rt
    (if String.eqb (typeof nextArg) "number"
     then {| options := undefined; app := VFun f; instances := nextArg |}
     else {| options := nextArg; app := VFun f; instances := undefined |}) w.
Proof.
  intros Hnext. rewrite constructor_run. cbv zeta.
  change (nth_arg [VFun f; nextArg] 1) with nextArg.
  change (nth_arg [VFun f; nextArg] 2) with undefined.
  rewrite Hnext. cbn [truthy].
  by destruct (String.eqb (typeof nextArg) "number").
Qed.


(** C7 at [new Cluster(app, 0, options)]: the count [0] is falsy, the whole
    argument block is skipped and the third argument is dropped; the instance
    gets a new empty options object (with the defaults) and the CPU count,
    and the caller's [options] is neither referenced nor touched. *)
Theorem zero_count_drops_options (rt : runtime) (f lo : loc) (w : world) :
  constructor rt [VFun f; VNum 0; VObj lo] w =
  (Ret {| options := VObj (length (heap w)); app := VFun f;
          instances := VNum (Z.of_nat (cpus_length rt)) |},
   World (heap w ++
            [Cell [] (<["listen" := VObj (length (heap w) + 2)%nat]>
                        (<["events" := VObj (length (heap w) + 1)%nat]> ∅));
             empty_object; empty_object])
         (trace w) (forked w)).
Proof.
  destruct w as [h tr n].
  change (constructor rt [VFun f; VNum 0; VObj lo] (World h tr n))
    with (normalizeOptions rt {| options := undefined; app := VFun f;
                                 instances := undefined |} (World h tr n)).
  by rewrite normalize_fresh.
Qed.

(** ** C6: resolved worker count and port *)

(** C6: [new Cluster(app, 4)] has [instances = 4] and its worker listens on
    port 8080; [new Cluster(app, {listen: {port: 9000}})] has the CPU count
    as [instances] and its worker listens on port 9000; a count of [0] also
    resolves to the CPU count. *)
Theorem construction_defaults (rt : runtime) (f lo ll : loc) (w : world) :
  isPrimary rt = false →
  heap w !! lo = Some (Cell [] {[ "listen" := VObj ll ]}) →
  heap w !! ll = Some (Cell [] {[ "port" := VNum 9000 ]}) →
  (∃ c w1 evOpts,
     constructor rt [VFun f; VNum 4] w = (Ret c, w1)
     ∧ instances c = VNum 4
     ∧ start rt c w1 =
       (Ret tt,
        World (heap w1)
          (trace w ++
             [process_on_uncaughtException evOpts;
              createServer false undefined (VFun f);
              server_listen (VNum 8080) undefined undefined undefined])
          (forked w)))
  ∧ (∃ c w1 evOpts,
       constructor rt [VFun f; VObj lo] w = (Ret c, w1)
       ∧ instances c = VNum (Z.of_nat (cpus_length rt))
       ∧ start rt c w1 =
         (Ret tt,
          World (heap w1)
            (trace w ++
               [process_on_uncaughtException evOpts;
                createServer false undefined (VFun f);
                server_listen (VNum 9000) undefined undefined undefined])
            (forked w)))
  ∧ (∃ c w1,
       constructor rt [VFun f; VNum 0] w = (Ret c, w1)
       ∧ instances c = VNum (Z.of_nat (cpus_length rt))).
Proof.
  intros Hprim Hlo Hll. destruct w as [h tr n]. cbn [heap trace forked] in *.
  split; [|split].
  - change (constructor rt [VFun f; VNum 4] (World h tr n))
      with (normalizeOptions rt {| options := undefined; app := VFun f;
                                   instances := VNum 4 |} (World h tr n)).
    rewrite normalize_fresh by done.
    eexists _, _, _. split; [reflexivity|]. split; [reflexivity|].
    cbn [heap].
    erewrite (start_worker_run rt _ (length h) (length h + 2)%nat);
      [| done | reflexivity | apply lookup_snoc_here
       | cbn [props]; apply lookup_insert_eq
       | by rewrite lookup_app_plus ].
    cbn [props empty_object]. rewrite ?lookup_empty.
    rewrite !lookup_insert_ne by done. rewrite ?lookup_insert_eq, ?lookup_empty.
    reflexivity.
  - assert (Hne : lo ≠ ll).
    { intros ->. rewrite Hlo in Hll.
      apply (f_equal (λ o, c ← o; props c !! "port")) in Hll.
      cbn [mbind option_bind props] in Hll.
      by rewrite lookup_singleton_ne, lookup_singleton_eq in Hll. }
    assert (Hlolt : (lo < length h)%nat) by (eapply lookup_lt_Some; eassumption).
    change (constructor rt [VFun f; VObj lo] (World h tr n))
      with (normalizeOptions rt {| options := VObj lo; app := VFun f;
                                   instances := undefined |} (World h tr n)).
    rewrite (normalize_missing_events rt
               {| options := VObj lo; app := VFun f; instances := undefined |}
               lo _ h tr n eq_refl Hlo)
      by (cbn [props]; by rewrite lookup_singleton_ne).
    cbn [props elems]. rewrite lookup_singleton_eq.
    cbn [default from_option id truthy]. cbv zeta.
    eexists _, _, _. split; [reflexivity|]. split; [reflexivity|].
    cbn [heap].
    erewrite (start_worker_run rt _ lo ll);
      [| done | reflexivity
       | apply lookup_app_l_Some; by rewrite list_lookup_insert_eq
       | cbn [props]; rewrite lookup_insert_ne by done;
         apply lookup_singleton_eq
       | apply lookup_app_l_Some; by rewrite list_lookup_insert_ne ].
    cbn [props]. rewrite lookup_insert_eq.
    rewrite !lookup_insert_ne by done. rewrite !lookup_singleton_ne by done.
    rewrite lookup_singleton_eq. reflexivity.
  - change (constructor rt [VFun f; VNum 0] (World h tr n))
      with (normalizeOptions rt {| options := undefined; app := VFun f;
                                   instances := undefined |} (World h tr n)).
    rewrite normalize_fresh by done. by eexists _, _.
Qed.

Lemma construction_defaults_witness :
  (∃ c w1 evOpts,
     constructor (sample_runtime false) [VFun 0%nat; VNum 4]
       sample_listen_world = (Ret c, w1)
     ∧ instances c = VNum 4
     ∧ start (sample_runtime false) c w1 =
       (Ret tt,
        World (heap w1)
          ([] ++
             [process_on_uncaughtException evOpts;
              createServer false undefined (VFun 0%nat);
              server_listen (VNum 8080) undefined undefined undefined])
          0%nat))
  ∧ (∃ c w1 evOpts,
       constructor (sample_runtime false) [VFun 0%nat; VObj 1%nat]
         sample_listen_world = (Ret c, w1)
       ∧ instances c = VNum 8
       ∧ start (sample_runtime false) c w1 =
         (Ret tt,
          World (heap w1)
            ([] ++
               [process_on_uncaughtException evOpts;
                createServer false undefined (VFun 0%nat);
                server_listen (VNum 9000) undefined undefined undefined])
            0%nat))
  ∧ (∃ c w1,
       constructor (sample_runtime false) [VFun 0%nat; VNum 0]
         sample_listen_world = (Ret c, w1)
       ∧ instances c = VNum 8).
Proof.
  apply (construction_defaults (sample_runtime false) 0%nat 1%nat 2%nat
           sample_listen_world); reflexivity.
Defined.

(** ** C10: a configured port of 0 *)

(** C10: with [listen.port = 0] the worker listens on port 8080, and the run
    of [start] has the same trace as with the port left unset. *)
Theorem zero_port_listens_on_default (rt : runtime) (this : Cluster)
    (lo ll : loc) (co cl : cell) (w : world) :
  isPrimary rt = false →
  options this = VObj lo →
  heap w !! lo = Some co →
  props co !! "listen" = Some (VObj ll) →
  heap w !! ll = Some cl →
  props cl !! "port" = Some (VNum 0) →
  let w_unset :=
    World (<[ll := Cell (elems cl) (delete "port" (props cl))]> (heap w))
      (trace w) (forked w) in
  ∃ evOpts isHttps advanced hostname backlog listeningListener,
    trace (start rt this w).2 =
      trace w ++ [process_on_uncaughtException evOpts;
                  createServer isHttps advanced (app this);
                  server_listen (VNum 8080) hostname backlog
                    listeningListener]
    ∧ (start rt this w).1 = Ret tt
    ∧ trace (start rt this w_unset).2 = trace (start rt this w).2
    ∧ (start rt this w_unset).1 = Ret tt.
Proof.
  intros Hprim Hopt Hlo Hli Hll Hport. destruct w as [h tr n].
  cbn [heap trace forked] in *. cbv zeta.
  set (cl' := Cell (elems cl) (delete "port" (props cl))).
  assert (Hlllt : (ll < length h)%nat) by (eapply lookup_lt_Some; eassumption).
  assert (Hll' : <[ll := cl']> h !! ll = Some cl')
    by (by rewrite list_lookup_insert_eq).
  assert (∃ co', <[ll := cl']> h !! lo = Some co'
                 ∧ ∀ k, k ≠ "port" → props co' !! k = props co !! k)
    as (co' & Hlo' & Hsame).
  { destruct (decide (lo = ll)) as [->|Hne].
    - exists cl'. split; [done|]. intros k Hk. subst cl'. cbn [props].
      rewrite lookup_delete_ne by done. congruence.
    - exists co. split; [|done]. by rewrite list_lookup_insert_ne. }
  rewrite (start_worker_run rt this lo ll co cl h tr n) by done.
  rewrite (start_worker_run rt this lo ll co' cl' _ tr n)
    by (try done; by rewrite Hsame).
  subst cl'. cbn [props fst snd trace]. rewrite Hport, lookup_delete_eq.
  rewrite !lookup_delete_ne by done. rewrite !Hsame by done.
  cbn [default from_option id truthy Z.eqb negb].
  by eexists _, _, _, _, _, _.
Qed.

Lemma zero_port_listens_on_default_witness :
  let this := {| options := VObj 1%nat; app := VFun 0%nat;
                 instances := VNum 8 |} in
  let w_unset :=
    World (<[2%nat := Cell [] (delete "port" {[ "port" := VNum 0 ]})]>
             (heap zero_port_world)) [] 0 in
  ∃ evOpts isHttps advanced hostname backlog listeningListener,
    trace (start (sample_runtime false) this zero_port_world).2 =
      [] ++ [process_on_uncaughtException evOpts;
             createServer isHttps advanced (VFun 0%nat);
             server_listen (VNum 8080) hostname backlog listeningListener]
    ∧ (start (sample_runtime false) this zero_port_world).1 = Ret tt
    ∧ trace (start (sample_runtime false) this w_unset).2
      = trace (start (sample_runtime false) this zero_port_world).2
    ∧ (start (sample_runtime false) this w_unset).1 = Ret tt.
Proof.
  exact (zero_port_listens_on_default (sample_runtime false)
           {| options := VObj 1%nat; app := VFun 0%nat; instances := VNum 8 |}
           1%nat 2%nat (Cell [] {[ "listen" := VObj 2%nat ]})
           (Cell [] {[ "port" := VNum 0 ]}) zero_port_world
           eq_refl eq_refl eq_refl eq_refl eq_refl eq_refl).
Defined.

(** * Further properties of the class *)

(** ** The closures on any store *)

(** [handler] on an array policy, whether or not the array is in the store
    (a reference outside the store reads as an empty object). *)
Lemma handler_on_array (rt : runtime) (le la : loc) (ce : cell)
    (err : thrown) (w : world) :
  heap w !! le = Some ce →
  props ce !! "error" = Some (VArr la) →
  let policy := elems (default empty_object (heap w !! la)) in
  handler rt (VObj le) err w =
  if has "throw" policy then (Throw err, w)
  else if has "exit" policy
  then (Exited,
        World (heap w)
          (trace w ++ (if has "log" policy then [log_error_line rt err]
                       else []) ++ [process_emit "disconnect"; process_exit])
          (forked w))
  else (if subscribed "error" (trace w) then Ret tt else Throw err,
        World (heap w)
          (trace w ++ (if has "log" policy then [log_error_line rt err]
                       else []) ++ [emit_error err (pid rt)])
          (forked w)).
Proof.
  intros Hle Herror. cbv zeta.
  apply (handler_on_policy _ _ (VArr la)); [|reflexivity].
  rewrite (get_prop_obj le "error" ce w Hle), Herror. reflexivity.
Qed.

Lemma exit_on_array (le la : loc) (ce : cell) (worker : Worker)
    (code signal : value) (w : world) :
  heap w !! le = Some ce →
  props ce !! "exit" = Some (VArr la) →
  let policy := elems (default empty_object (heap w !! la)) in
  exit (VObj le) worker code signal w =
  if has "exit" policy
  then (Exited,
        World (heap w)
          (trace w ++ (if has "log" policy then [log_exit_line worker]
                       else []) ++ [process_exit])
          (forked w))
  else (Ret tt,
        World (heap w)
          (trace w ++ (if has "log" policy then [log_exit_line worker]
                       else []) ++ [emit_exit worker code signal])
          (forked w)).
Proof.
  intros Hle Hexit. cbv zeta.
  apply (exit_on_policy _ (VArr la)); [|reflexivity].
  rewrite (get_prop_obj le "exit" ce w Hle), Hexit. reflexivity.
Qed.

(** The closures when the policy slot is not set. *)
Lemma handler_unset (rt : runtime) (le : loc) (ce : cell) (err : thrown)
    (w : world) :
  heap w !! le = Some ce →
  props ce !! "error" = None →
  handler rt (VObj le) err w =
  (if subscribed "error" (trace w) then Ret tt else Throw err,
   World (heap w) (trace w ++ [emit_error err (pid rt)]) (forked w)).
Proof.
  intros Hle Herror.
  apply (handler_on_policy rt (VObj le) undefined [] err w); [|reflexivity].
  rewrite (get_prop_obj le "error" ce w Hle), Herror. reflexivity.
Qed.

Lemma exit_unset (le : loc) (ce : cell) (worker : Worker)
    (code signal : value) (w : world) :
  heap w !! le = Some ce →
  props ce !! "exit" = None →
  exit (VObj le) worker code signal w =
  (Ret tt,
   World (heap w) (trace w ++ [emit_exit worker code signal]) (forked w)).
Proof.
  intros Hle Hexit.
  apply (exit_on_policy (VObj le) undefined [] worker code signal w);
    [|reflexivity].
  rewrite (get_prop_obj le "exit" ce w Hle), Hexit. reflexivity.
Qed.

(** ** The closures of [start] *)

(** X1: when [throw] occurs in the error policy, the handler re-throws the
    error at once: nothing is logged, no disconnect is signalled and nothing
    is notified, whatever else the policy lists. *)
Theorem throw_policy_rethrows_silently (rt : runtime) (le la : loc)
    (ce ca : cell) (err : thrown) (w : world) :
  heap w !! le = Some ce →
  props ce !! "error" = Some (VArr la) →
  heap w !! la = Some ca →
  has "throw" (elems ca) = true →
  handler rt (VObj le) err w = (Throw err, w).
Proof.
  intros Hle Herror Hla Hthrow.
  by rewrite (handler_run rt le la ce ca err w Hle Herror Hla), Hthrow.
Qed.

Lemma throw_policy_rethrows_silently_witness :
  handler (sample_runtime false) (VObj 0%nat) (Error "boom")
    (policy_world "error" [VStr "log"; VStr "throw"])
  = (Throw (Error "boom"), policy_world "error" [VStr "log"; VStr "throw"]).
Proof.
  exact (throw_policy_rethrows_silently (sample_runtime false) 0%nat 1%nat
           _ _ (Error "boom")
           (policy_world "error" [VStr "log"; VStr "throw"])
           eq_refl eq_refl eq_refl eq_refl).
Defined.



Lemma has_filter_known (order : list string) (name : string)
    (policy : list value) :
  name ∈ order →
  has name (List.filter (known_action order) policy) = has name policy.
Proof.
  intros Hin. unfold has. induction policy as [|v policy IH]; [done|].
  cbn [List.filter existsb].
  destruct (known_action order v) eqn:Hknown.
  - cbn [existsb]. by rewrite IH.
  - rewrite IH.
    assert (Hv : is_string name v = false); [|by rewrite Hv].
    destruct (is_string name v) eqn:Hs; [|done].
    unfold known_action in Hknown.
    assert (existsb (λ name0, is_string name0 v) order = true); [|congruence].
    apply existsb_exists. exists name. split; [|done].
    by apply list_elem_of_In.
Qed.

(** X3: entries of the error policy other than the strings [throw], [log]
    and [exit] (the declared value [continue], say) are ignored: the handler
    does the same on the policy without them. *)
Theorem policy_ignores_other_entries (rt : runtime) (le le' la la' : loc)
    (ce ce' ca ca' : cell) (err : thrown) (w : world) :
  heap w !! le = Some ce →
  props ce !! "error" = Some (VArr la) →
  heap w !! la = Some ca →
  heap w !! le' = Some ce' →
  props ce' !! "error" = Some (VArr la') →
  heap w !! la' = Some ca' →
  elems ca' = List.filter (known_action error_actions) (elems ca) →
  handler rt (VObj le') err w = handler rt (VObj le) err w.
Proof.
  intros Hle Herror Hla Hle' Herror' Hla' Hfilter.
  rewrite (handler_run rt le la ce ca err w Hle Herror Hla).
  rewrite (handler_run rt le' la' ce' ca' err w Hle' Herror' Hla').
  rewrite Hfilter.
  rewrite !has_filter_known by (unfold error_actions; set_solver).
  reflexivity.
Qed.

Lemma policy_ignores_other_entries_witness :
  handler (sample_runtime false) (VObj 2%nat) (Error "boom")
    noisy_policy_world
  = handler (sample_runtime false) (VObj 0%nat) (Error "boom")
      noisy_policy_world.
Proof.
  exact (policy_ignores_other_entries (sample_runtime false)
           0%nat 2%nat 1%nat 3%nat _ _ _ _ (Error "boom") noisy_policy_world
           eq_refl eq_refl eq_refl eq_refl eq_refl eq_refl eq_refl).
Defined.



(** X10: once [normalizeOptions] has run, the closures cannot fail on the
    policy entries, whatever values the caller put there: the handler
    returns, ends the process or re-throws the very error it was given, and
    the exit closure returns or ends the process. *)
Theorem normalized_policies_never_fail (rt : runtime) (cls : Cluster)
    (lo le : loc) (co ce : cell) (w : world) :
  options cls = VObj lo →
  heap w !! lo = Some co →
  props co !! "events" = Some (VObj le) →
  lo ≠ le →
  heap w !! le = Some ce →
  ∃ cls' w',
    normalizeOptions rt cls w = (Ret cls', w')
    ∧ ∀ err worker code signal,
        (let o := (handler rt (VObj le) err w').1 in
         o = Ret tt ∨ o = Exited ∨ o = Throw err)
        ∧ (let o := (exit (VObj le) worker code signal w').1 in
           o = Ret tt ∨ o = Exited).
Proof.
  intros Hopt Hlo Hev Hne Hle. destruct w as [h tr n]. cbn [heap] in *.
  destruct (normalize_existing rt cls lo le co ce h tr n)
    as (h' & co' & ce' & Hrun & _ & _ & _ & _ & _ & Hle' & _ & _
          & Hnone & Hsome); try done.
  exists (with_default_instances rt cls), (World h' tr n).
  split; [done|]. intros err worker code signal.
  assert (Hentry : ∀ k, props ce' !! k = None
                        ∨ ∃ la, props ce' !! k = Some (VArr la)).
  { intros k. destruct (props ce !! k) as [v|] eqn:Hk.
    - right. specialize (Hsome k v Hk). destruct v; cbn in Hsome;
        try (destruct Hsome as (la & Hla & _); by exists la); by eexists.
    - left. by apply Hnone. }
  split; cbv zeta.
  - destruct (Hentry "error") as [Herr|[la Herr]].
    + rewrite (handler_unset rt le ce' err (World h' tr n)) by done.
      cbn [fst trace]. destruct (subscribed "error" tr); by auto.
    + rewrite (handler_on_array rt le la ce' err (World h' tr n)) by done.
      cbv zeta.
      destruct (has "throw" _); [by right; right|].
      destruct (has "exit" _); [by right; left|].
      cbn [fst trace]. destruct (subscribed "error" tr); by auto.
  - destruct (Hentry "exit") as [Hex|[la Hex]].
    + rewrite (exit_unset le ce' worker code signal (World h' tr n)) by done.
      by left.
    + rewrite (exit_on_array le la ce' worker code signal (World h' tr n))
        by done.
      cbv zeta. destruct (has "exit" _); [by right|by left].
Qed.

Lemma normalized_policies_never_fail_witness :
  ∃ cls' w',
    normalizeOptions (sample_runtime true) sample_cluster
      singular_policies_world = (Ret cls', w')
    ∧ ∀ err worker code signal,
        (let o := (handler (sample_runtime true) (VObj 2%nat) err w').1 in
         o = Ret tt ∨ o = Exited ∨ o = Throw err)
        ∧ (let o := (exit (VObj 2%nat) worker code signal w').1 in
           o = Ret tt ∨ o = Exited).
Proof.
  apply (normalized_policies_never_fail (sample_runtime true) sample_cluster
           1%nat 2%nat sample_options
           (Cell [] {[ "error" := VNum 5; "exit" := VStr "log" ]})
           singular_policies_world);
    [reflexivity | reflexivity | reflexivity | lia | reflexivity].
Defined.

(** X11: a singular policy value behaves as that one action: after
    normalization the handler (the exit closure) runs the action of the
    value, if it has one, and then, if control gets there, emits the
    notification (for the handler the inherited [emit] of [error], which
    throws the error when no listener is subscribed). *)
Theorem singular_policy_runs_its_action (rt : runtime) (cls : Cluster)
    (lo le : loc) (co ce : cell) (onError onExit : value) (w : world) :
  options cls = VObj lo →
  heap w !! lo = Some co →
  props co !! "events" = Some (VObj le) →
  lo ≠ le →
  heap w !! le = Some ce →
  props ce !! "error" = Some onError →
  isArray onError = false →
  props ce !! "exit" = Some onExit →
  isArray onExit = false →
  ∃ cls' w',
    normalizeOptions rt cls w = (Ret cls', w')
    ∧ ∀ err worker code signal,
        handler rt (VObj le) err w' =
          (spec_error_action rt err onError;; this_emit_error rt err) w'
        ∧ exit (VObj le) worker code signal w' =
          (spec_exit_action worker onExit;;
           perform (emit_exit worker code signal)) w'.
Proof.
  intros Hopt Hlo Hev Hne Hle Herror Harr Hexit Harr'.
  destruct w as [h tr n]. cbn [heap] in *.
  destruct (normalize_existing rt cls lo le co ce h tr n)
    as (h' & co' & ce' & Hrun & _ & _ & _ & _ & _ & Hle' & _ & _
          & Hnone & Hsome); try done.
  exists (with_default_instances rt cls), (World h' tr n).
  split; [done|]. intros err worker code signal.
  pose proof (Hsome "error" onError Herror) as Herr'. rewrite Harr in Herr'.
  destruct Herr' as (la & Hla & Hcell).
  pose proof (Hsome "exit" onExit Hexit) as Hex'. rewrite Harr' in Hex'.
  destruct Hex' as (la' & Hla' & Hcell').
  split.
  - rewrite (handler_run rt le la ce' _ err (World h' tr n) Hle' Hla Hcell).
    unfold has, spec_error_action. cbn [elems array_of existsb].
    rewrite !orb_false_r.
    rewrite bind_unfold.
    destruct (is_string "throw" onError) eqn:Et; [reflexivity|].
    destruct (is_string "log" onError) eqn:El.
    + assert (is_string "exit" onError = false) as ->.
      { destruct onError; try done. cbn in *.
        apply String.eqb_eq in El as ->. done. }
      unfold perform. cbn beta iota. rewrite this_emit_error_run.
      rewrite subscribed_app. cbn [subscribed existsb heap trace forked].
      rewrite orb_false_r. by rewrite <- app_assoc.
    + destruct (is_string "exit" onError) eqn:Ee.
      * unfold_M. cbn. by rewrite <- ?app_assoc.
      * change ((mret tt : M unit) (World h' tr n))
          with (Ret tt, World h' tr n).
        cbn beta iota. by rewrite this_emit_error_run.
  - rewrite (exit_run le la' ce' _ worker code signal (World h' tr n)
               Hle' Hla' Hcell').
    unfold has, spec_exit_action. cbn [elems array_of existsb].
    rewrite !orb_false_r.
    destruct (is_string "log" onExit) eqn:El.
    + assert (is_string "exit" onExit = false) as ->.
      { destruct onExit; try done. cbn in *.
        apply String.eqb_eq in El as ->. done. }
      unfold_M. cbn. by rewrite <- app_assoc.
    + destruct (is_string "exit" onExit) eqn:Ee; unfold_M; cbn;
        by rewrite <- ?app_assoc.
Qed.

Lemma singular_policy_runs_its_action_witness :
  ∃ cls' w',
    normalizeOptions (sample_runtime true) sample_cluster
      singular_policies_world = (Ret cls', w')
    ∧ ∀ err worker code signal,
        handler (sample_runtime true) (VObj 2%nat) err w' =
          (spec_error_action (sample_runtime true) err (VNum 5);;
           this_emit_error (sample_runtime true) err) w'
        ∧ exit (VObj 2%nat) worker code signal w' =
          (spec_exit_action worker (VStr "log");;
           perform (emit_exit worker code signal)) w'.
Proof.
  apply (singular_policy_runs_its_action (sample_runtime true) sample_cluster
           1%nat 2%nat sample_options
           (Cell [] {[ "error" := VNum 5; "exit" := VStr "log" ]})
           (VNum 5) (VStr "log") singular_policies_world);
    [reflexivity | reflexivity | reflexivity | lia | reflexivity
     | reflexivity | reflexivity | reflexivity | reflexivity].
Defined.

(** ** The constructor *)

(** X5: a falsy second argument ([0], [NaN], [null], an empty string) makes
    the constructor ignore the third argument as well, and a falsy third
    argument is ignored: in both cases the call behaves as the call without
    those arguments. *)
Theorem constructor_falsy_arguments (rt : runtime) (f : loc) (a b : value)
    (w : world) :
  constructor rt [VFun f; a; b] w =
  constructor rt
    (if truthy a then if truthy b then [VFun f; a; b] else [VFun f; a]
     else [VFun f]) w.
Proof.
  destruct (truthy a) eqn:Ha; [destruct (truthy b) eqn:Hb|]; [done| |].
  - rewrite !constructor_run. cbv zeta.
    change (nth_arg [VFun f; a; b] 1) with a.
    change (nth_arg [VFun f; a; b] 2) with b.
    change (nth_arg [VFun f; a] 1) with a.
    change (nth_arg [VFun f; a] 2) with undefined.
    by rewrite Ha, Hb.
  - rewrite !constructor_run. cbv zeta.
    change (nth_arg [VFun f; a; b] 1) with a.
    change (nth_arg [VFun f] 1) with undefined.
    by rewrite Ha.
Qed.

Lemma with_default_instances_instances (rt : runtime) (cls : Cluster) :
  typeof (instances cls) = "number" ∨ truthy (instances cls) = false →
  typeof (instances (with_default_instances rt cls)) = "number".
Proof.
  unfold with_default_instances. intros [Hty|Hfalsy].
  - destruct (truthy (instances cls)); [done|reflexivity].
  - by rewrite Hfalsy.
Qed.

(** After [normalizeOptions] the options object has its [events] and its
    [listen]. *)
Lemma normalize_populated (rt : runtime) (cls : Cluster) (lo : loc)
    (co : cell) (h : list cell) (tr : list effect) (n : nat) :
  options cls = VObj lo →
  h !! lo = Some co →
  events_plain h lo co = true →
  ∃ h',
    normalizeOptions rt cls (World h tr n)
      = (Ret (with_default_instances rt cls), World h' tr n)
    ∧ populated h' (with_default_instances rt cls) = true.
Proof.
  intros Hopt Hlo Hplain. unfold populated.
  rewrite with_default_instances_options, Hopt.
  unfold events_plain in Hplain.
  assert (Hlolt : (lo < length h)%nat) by (eapply lookup_lt_Some; eassumption).
  destruct (truthy (default undefined (props co !! "events"))) eqn:Hev.
  - destruct (props co !! "events") as [ev|] eqn:Hev'; [|done].
    cbn [default from_option id] in Hplain, Hev.
    destruct ev as [| |b|k| |s|le|la|lf]; try done;
      try (rewrite Hev in Hplain; done).
    apply andb_prop in Hplain as [Hne Hsome].
    apply bool_decide_eq_true in Hne, Hsome. destruct Hsome as [ce Hle].
    destruct (normalize_existing rt cls lo le co ce h tr n)
      as (h' & co' & ce' & Hrun & Hlo' & Hev'' & Hli' & _); try done.
    exists h'. split; [done|]. by rewrite Hlo', Hev'', Hli'.
  - rewrite (normalize_missing_events rt cls lo co h tr n Hopt Hlo Hev).
    eexists. split; [reflexivity|]. cbv zeta.
    destruct (truthy (default undefined (props co !! "listen"))) eqn:Hli.
    + rewrite lookup_app_l by (rewrite length_insert; lia).
      rewrite list_lookup_insert_eq by done. cbn [props].
      rewrite lookup_insert_eq. rewrite lookup_insert_ne by done.
      by rewrite Hli.
    + rewrite lookup_app_l by (rewrite length_insert; lia).
      rewrite list_lookup_insert_eq by done. cbn [props].
      rewrite lookup_insert_eq. rewrite lookup_insert_ne by done.
      by rewrite lookup_insert_eq.
Qed.

Lemma normalize_fresh_populated (rt : runtime) (cls : Cluster)
    (h : list cell) (tr : list effect) (n : nat) :
  truthy (options cls) = false →
  ∃ h',
    normalizeOptions rt cls (World h tr n)
      = (Ret (with_default_instances rt (set_options cls (VObj (length h)))),
         World h' tr n)
    ∧ populated h'
        (with_default_instances rt (set_options cls (VObj (length h))))
      = true.
Proof.
  intros Hopt. rewrite normalize_fresh by done. eexists. split; [done|].
  unfold populated. rewrite with_default_instances_options.
  cbn [options set_options]. rewrite lookup_snoc_here. cbn [props].
  rewrite lookup_insert_ne by done. by rewrite !lookup_insert_eq.
Qed.

(** X7: for each of the four declared overloads the constructor returns an
    instance whose options is an object of the store with an [events] and a
    [listen], and whose [instances] is a number; it has no effect on the
    outside world. *)
Theorem constructor_populates (rt : runtime) (args : list value) (w : world) :
  declared_overload (heap w) args = true →
  ∃ c w1,
    constructor rt args w = (Ret c, w1)
    ∧ populated (heap w1) c = true
    ∧ typeof (instances c) = "number"
    ∧ trace w1 = trace w
    ∧ forked w1 = forked w.
Proof.
  intros Hargs. destruct w as [h tr n]. cbn [heap trace forked] in *.
  unfold declared_overload in Hargs.
  destruct args as [|[| | | | | | | |f] [|a [|b [|? ?]]]]; try done.
  - (* new Cluster(app) *)
    change (constructor rt [VFun f] (World h tr n))
      with (normalizeOptions rt {| options := undefined; app := VFun f;
                                   instances := undefined |} (World h tr n)).
    destruct (normalize_fresh_populated rt
                {| options := undefined; app := VFun f;
                   instances := undefined |} h tr n eq_refl)
      as (h' & Hrun & Hpop).
    eexists _, _. split; [exact Hrun|]. split; [exact Hpop|].
    split; [|done]. apply with_default_instances_instances. by right.
  - destruct a as [| | |k| | |lo| |]; try done.
    + (* new Cluster(app, count) *)
      destruct (truthy (VNum k)) eqn:Hk.
      * rewrite (constructor_two_arguments rt f (VNum k)) by done.
        change (String.eqb (typeof (VNum k)) "number") with true. cbv iota.
        destruct (normalize_fresh_populated rt
                    {| options := undefined; app := VFun f;
                       instances := VNum k |} h tr n eq_refl)
          as (h' & Hrun & Hpop).
        eexists _, _. split; [exact Hrun|]. split; [exact Hpop|].
        split; [|done]. apply with_default_instances_instances. by left.
      * assert (k = 0) as -> by (cbn in Hk; destruct (Z.eqb_spec k 0); done).
        change (constructor rt [VFun f; VNum 0] (World h tr n))
          with (normalizeOptions rt {| options := undefined; app := VFun f;
                                       instances := undefined |}
                  (World h tr n)).
        destruct (normalize_fresh_populated rt
                    {| options := undefined; app := VFun f;
                       instances := undefined |} h tr n eq_refl)
          as (h' & Hrun & Hpop).
        eexists _, _. split; [exact Hrun|]. split; [exact Hpop|].
        split; [|done]. apply with_default_instances_instances. by right.
    + (* new Cluster(app, options) *)
      unfold options_plain in Hargs.
      destruct (h !! lo) as [co|] eqn:Hlo; [|done].
      rewrite (constructor_two_arguments rt f (VObj lo)) by done.
      change (String.eqb (typeof (VObj lo)) "number") with false. cbv iota.
      destruct (normalize_populated rt
                  {| options := VObj lo; app := VFun f;
                     instances := undefined |} lo co h tr n eq_refl Hlo Hargs)
        as (h' & Hrun & Hpop).
      eexists _, _. split; [exact Hrun|]. split; [exact Hpop|].
      split; [|done]. apply with_default_instances_instances. by right.
  - (* new Cluster(app, count, options) *)
    destruct a as [| | |k| | | | |]; try done.
    destruct b as [| | | | | |lo| |]; try done.
    unfold options_plain in Hargs.
    destruct (h !! lo) as [co|] eqn:Hlo; [|done].
    destruct (truthy (VNum k)) eqn:Hk.
    + rewrite (constructor_three_arguments rt f (VNum k) (VObj lo)) by done.
      destruct (normalize_populated rt
                  {| options := VObj lo; app := VFun f;
                     instances := VNum k |} lo co h tr n eq_refl Hlo Hargs)
        as (h' & Hrun & Hpop).
      eexists _, _. split; [exact Hrun|]. split; [exact Hpop|].
      split; [|done]. apply with_default_instances_instances. by left.
    + assert (k = 0) as -> by (cbn in Hk; destruct (Z.eqb_spec k 0); done).
      change (constructor rt [VFun f; VNum 0; VObj lo] (World h tr n))
        with (normalizeOptions rt {| options := undefined; app := VFun f;
                                     instances := undefined |}
                (World h tr n)).
      destruct (normalize_fresh_populated rt
                  {| options := undefined; app := VFun f;
                     instances := undefined |} h tr n eq_refl)
        as (h' & Hrun & Hpop).
      eexists _, _. split; [exact Hrun|]. split; [exact Hpop|].
      split; [|done]. apply with_default_instances_instances. by right.
  - destruct a; try done; destruct b; done.
Qed.

Lemma constructor_populates_witness :
  ∃ c w1,
    constructor (sample_runtime true) [VFun 0%nat; VNum 2; VObj 1%nat]
      sample_options_world = (Ret c, w1)
    ∧ populated (heap w1) c = true
    ∧ typeof (instances c) = "number"
    ∧ trace w1 = []
    ∧ forked w1 = 0%nat.
Proof.
  apply (constructor_populates (sample_runtime true)
           [VFun 0%nat; VNum 2; VObj 1%nat] sample_options_world).
  reflexivity.
Defined.

(** ** [start] *)








(** X9: a truthy [listen.port] is handed to [listen] as it is, whatever its
    type (no conversion to a number takes place). *)
Theorem truthy_port_passed_through (rt : runtime) (this : Cluster)
    (lo ll : loc) (co cl : cell) (port : value) (w : world) :
  isPrimary rt = false →
  options this = VObj lo →
  heap w !! lo = Some co →
  props co !! "listen" = Some (VObj ll) →
  heap w !! ll = Some cl →
  props cl !! "port" = Some port →
  truthy port = true →
  ∃ evOpts isHttps advanced hostname backlog listeningListener,
    start rt this w =
    (Ret tt,
     World (heap w)
       (trace w ++ [process_on_uncaughtException evOpts;
                    createServer isHttps advanced (app this);
                    server_listen port hostname backlog listeningListener])
       (forked w)).
Proof.
  intros Hprim Hopt Hlo Hli Hll Hport Htruthy. destruct w as [h tr n].
  cbn [heap trace forked] in *.
  rewrite (start_worker_run rt this lo ll co cl h tr n) by done.
  rewrite Hport. cbn [default from_option id]. rewrite Htruthy.
  by eexists _, _, _, _, _, _.
Qed.

Lemma truthy_port_passed_through_witness :
  ∃ evOpts isHttps advanced hostname backlog listeningListener,
    start (sample_runtime false) populated_cluster populated_world =
    (Ret tt,
     World (heap populated_world)
       ([] ++ [process_on_uncaughtException evOpts;
               createServer isHttps advanced (VFun 0%nat);
               server_listen (VStr "3000") hostname backlog
                 listeningListener])
       0).
Proof.
  exact (truthy_port_passed_through (sample_runtime false) populated_cluster
           1%nat 3%nat _ _ (VStr "3000") populated_world
           eq_refl eq_refl eq_refl eq_refl eq_refl eq_refl eq_refl).
Defined.

(** ** Computations that do not write to the store *)

Lemma keeps_store_ret {A} (a : A) : keeps_store (mret a : M A).
Proof. by intros w. Qed.

Lemma keeps_store_bind {A B} (m : M A) (f : A → M B) :
  keeps_store m → (∀ a, keeps_store (f a)) → keeps_store (m ≫= f).
Proof.
  intros Hm Hf w. rewrite bind_unfold. specialize (Hm w).
  destruct (m w) as [[a| |] w']; cbn [snd] in *; [|done..].
  by rewrite Hf.
Qed.

Lemma keeps_store_throw {A} (e : thrown) : keeps_store (throw e : M A).
Proof. by intros w. Qed.

Lemma keeps_store_perform (e : effect) : keeps_store (perform e).
Proof. by intros w. Qed.

Lemma keeps_store_exit_process : keeps_store exit_process.
Proof. by intros w. Qed.

Lemma keeps_store_get_prop (o : value) (k : string) :
  keeps_store (get_prop o k).
Proof. intros w. by destruct o. Qed.

Lemma keeps_store_optional_includes (r : value) (name : string) :
  keeps_store (optional_includes r name).
Proof. intros w. by destruct r. Qed.

Lemma keeps_store_when (b : bool) (m : M unit) :
  keeps_store m → keeps_store (when b m).
Proof. intros Hm. destruct b; [done|apply keeps_store_ret]. Qed.

Lemma keeps_store_fork (rt : runtime) (this : Cluster) :
  keeps_store (fork rt this).
Proof. by intros w. Qed.

Lemma keeps_store_fork_loop (rt : runtime) (this : Cluster) (fuel : nat)
    (i : Z) :
  keeps_store (fork_loop rt fuel i this).
Proof.
  revert i. induction fuel as [|fuel IH]; intros i; cbn [fork_loop].
  - apply keeps_store_ret.
  - apply keeps_store_bind; [by intros w|]. intros [|].
    + apply keeps_store_bind; [apply keeps_store_fork|]. intros _. apply IH.
    + apply keeps_store_ret.
Qed.

Ltac keeps_store :=
  repeat first
    [ apply keeps_store_ret
    | apply keeps_store_throw
    | apply keeps_store_perform
    | apply keeps_store_exit_process
    | apply keeps_store_get_prop
    | apply keeps_store_optional_includes
    | apply keeps_store_fork_loop
    | apply keeps_store_when
    | apply keeps_store_bind; [|intros ?]
    | match goal with
      | |- keeps_store (if ?b then _ else _) => destruct b
      end ].

Lemma keeps_store_handler (rt : runtime) (evOpts : value) (err : thrown) :
  keeps_store (handler rt evOpts err).
Proof. unfold handler. keeps_store. Qed.

Lemma keeps_store_exit (evOpts : value) (worker : Worker)
    (code signal : value) :
  keeps_store (exit evOpts worker code signal).
Proof. unfold exit. keeps_store. Qed.

Lemma keeps_store_start (rt : runtime) (this : Cluster) :
  keeps_store (start rt this).
Proof. unfold start. keeps_store. Qed.

(** X12: [start] and its two closures never write to the store, on any
    input: the configuration is only read once the instance is built. *)
Theorem configuration_is_read_only (rt : runtime) (this : Cluster)
    (evOpts : value) (err : thrown) (worker : Worker) (code signal : value)
    (w : world) :
  heap (start rt this w).2 = heap w
  ∧ heap (handler rt evOpts err w).2 = heap w
  ∧ heap (exit evOpts worker code signal w).2 = heap w.
Proof.
  split; [apply keeps_store_start|].
  split; [apply keeps_store_handler|apply keeps_store_exit].
Qed.

(** * The earlier versions *)

(** X13: the exit listener of the earlier versions is a single choice.  It
    has exactly one effect: it ends the coordinator for the policy [exit],
    forks one worker (without a [start] notification or a disconnect
    listener) for [restart], logs its one line for [log], and emits the
    [exit] notification for any other value. *)
Theorem earlier_exit_listener_single_choice (rt : runtime)
    (evOpts policy : value) (worker : Worker) (code signal : value)
    (w : world) :
  get_prop evOpts "exit" w = (Ret policy, w) →
  Earlier.exit_listener rt evOpts worker code signal w =
  if is_string "exit" policy
  then (Exited, World (heap w) (trace w ++ [process_exit]) (forked w))
  else if is_string "restart" policy
  then (Ret tt,
        World (heap w)
          (trace w ++ [cluster_fork
                         {| worker_id := S (forked w);
                            worker_pid := child_pid rt (S (forked w)) |}])
          (S (forked w)))
  else if is_string "log" policy
  then (Ret tt,
        World (heap w) (trace w ++ [log_exit_line worker]) (forked w))
  else (Ret tt,
        World (heap w) (trace w ++ [emit_exit worker code signal])
          (forked w)).
Proof.
  intros Hget. unfold Earlier.exit_listener.
  rewrite bind_unfold, Hget. cbn beta iota.
  destruct (is_string "exit" policy); [reflexivity|].
  rewrite bind_unfold, Hget. cbn beta iota.
  destruct (is_string "restart" policy); [reflexivity|].
  rewrite bind_unfold, Hget. cbn beta iota.
  destruct (is_string "log" policy); reflexivity.
Qed.

Lemma earlier_exit_listener_single_choice_witness :
  Earlier.exit_listener (sample_runtime true) (VObj 2%nat) sample_worker
    (VNum 1) null singular_exit_world =
  (Exited, World (heap singular_exit_world) [process_exit] 0).
Proof.
  exact (earlier_exit_listener_single_choice (sample_runtime true)
           (VObj 2%nat) (VStr "exit") sample_worker (VNum 1) null
           singular_exit_world eq_refl).
Defined.



(** ** Computations that only add objects to the store *)

Lemma grows_of_keeps {A} (m : M A) : keeps_store m → grows_store m.
Proof. intros Hm w. by rewrite Hm. Qed.

Lemma grows_store_bind {A B} (m : M A) (f : A → M B) :
  grows_store m → (∀ a, grows_store (f a)) → grows_store (m ≫= f).
Proof.
  intros Hm Hf w. rewrite bind_unfold. specialize (Hm w).
  destruct (m w) as [[a| |] w']; cbn [snd] in *; [|done..].
  etrans; [exact Hm|apply Hf].
Qed.

Lemma grows_store_new_object : grows_store new_object.
Proof. intros w. cbn. by apply prefix_app_r. Qed.

Lemma grows_store_or_new_object (v : value) :
  grows_store (Earlier.or_new_object v).
Proof.
  unfold Earlier.or_new_object. destruct (truthy v).
  - apply grows_of_keeps, keeps_store_ret.
  - apply grows_store_new_object.
Qed.

Lemma keeps_store_coordinate (rt : runtime) (this : Cluster)
    (evOpts : value) :
  keeps_store (Earlier.coordinate rt this evOpts).
Proof. unfold Earlier.coordinate. keeps_store. Qed.

Ltac grows_store :=
  repeat first
    [ apply grows_store_or_new_object
    | apply grows_store_new_object
    | apply grows_of_keeps; solve [keeps_store | apply keeps_store_coordinate]
    | apply grows_store_bind; [|intros ?]
    | match goal with
      | |- grows_store (if ?b then _ else _) => destruct b
      end ].

(** X15: the earlier versions never write to an object of the store: their
    constructors and [start] at most add new empty objects (the [{}] of the
    defaults), and their listeners leave the store as it is. *)
Theorem earlier_versions_never_write (rt : runtime) (args : list value)
    (this : Cluster) (evOpts : value) (err : thrown) (worker : Worker)
    (code signal : value) (w : world) :
  heap (Earlier.First.constructor rt args w).2 = heap w
  ∧ heap w `prefix_of` heap (Earlier.Second.constructor rt args w).2
  ∧ heap w `prefix_of` heap (Earlier.First.start rt this w).2
  ∧ heap w `prefix_of` heap (Earlier.Second.start rt this w).2
  ∧ heap (Earlier.handler rt evOpts err w).2 = heap w
  ∧ heap (Earlier.exit_listener rt evOpts worker code signal w).2 = heap w.
Proof.
  split; [done|]. split.
  { revert w. change (grows_store (Earlier.Second.constructor rt args)).
    unfold Earlier.Second.constructor. grows_store. }
  split.
  { revert w. change (grows_store (Earlier.First.start rt this)).
    unfold Earlier.First.start. grows_store. }
  split.
  { revert w. change (grows_store (Earlier.Second.start rt this)).
    unfold Earlier.Second.start. grows_store. }
  split.
  - revert w. change (keeps_store (Earlier.handler rt evOpts err)).
    unfold Earlier.handler. keeps_store.
  - revert w.
    change (keeps_store (Earlier.exit_listener rt evOpts worker code signal)).
    unfold Earlier.exit_listener. keeps_store.
Qed.

Lemma or_new_object_run (v : value) (h : list cell) (tr : list effect)
    (n : nat) :
  Earlier.or_new_object v (World h tr n) =
  if truthy v then (Ret v, World h tr n)
  else (Ret (VObj (length h)), World (h ++ [empty_object]) tr n).
Proof. unfold Earlier.or_new_object. by destruct (truthy v). Qed.

(** X16: the first version has no default port and takes the app from the
    options: with no [listen] configured a worker creates the server on
    [opts.app] and calls [listen] with [undefined] for the port and for the
    other three arguments. *)
Theorem first_version_has_no_port_default (rt : runtime) (this : Cluster)
    (lo : loc) (co : cell) (w : world) :
  isPrimary rt = false →
  options this = VObj lo →
  heap w !! lo = Some co →
  props co !! "listen" = None →
  ∃ w' evOpts,
    Earlier.First.start rt this w = (Ret tt, w')
    ∧ trace w' =
      trace w ++
        [process_on_uncaughtException evOpts;
         createServer (truthy (default undefined (props co !! "isHttps")))
           (default undefined (props co !! "advanced"))
           (default undefined (props co !! "app"));
         server_listen undefined undefined undefined undefined].
Proof.
  intros Hprim Hopt Hlo Hli. destruct w as [h tr n].
  cbn [heap trace forked] in *.
  assert (Hlolt : (lo < length h)%nat) by (eapply lookup_lt_Some; eassumption).
  unfold Earlier.First.start. rewrite Hprim, Hopt.
  rewrite bind_unfold, get_prop_read, Hlo. cbn beta iota.
  cbn [default from_option id]. rewrite Hli. cbn [from_option].
  rewrite bind_unfold, or_new_object_run. cbn [truthy]. cbn beta iota.
  assert (Hlo1 : (h ++ [empty_object]) !! lo = Some co)
    by (by apply lookup_app_l_Some).
  rewrite bind_unfold, get_prop_read, Hlo1. cbn beta iota.
  cbn [default from_option id].
  rewrite bind_unfold, or_new_object_run.
  set (events := from_option id undefined (props co !! "events")).
  assert (Hfresh : ∀ t, (h ++ empty_object :: t) !! length h
                        = Some empty_object)
    by (intros t; apply lookup_snoc_here).
  destruct (truthy events); cbn beta iota.
  - rewrite bind_unfold, perform_run. cbn beta iota.
    rewrite bind_unfold, get_prop_read, Hlo1. cbn beta iota.
    rewrite bind_unfold, get_prop_read, Hlo1. cbn beta iota.
    rewrite bind_unfold, get_prop_read, Hlo1. cbn beta iota.
    rewrite bind_unfold, perform_run. cbn beta iota.
    do 4 (rewrite bind_unfold, get_prop_read, Hfresh; cbn beta iota).
    rewrite perform_run. eexists _, _. split; [reflexivity|].
    cbn [trace]. by rewrite <- !app_assoc.
  - assert (Hlo2 : ((h ++ [empty_object]) ++ [empty_object]) !! lo = Some co)
      by (by apply lookup_app_l_Some).
    rewrite <- app_assoc in *. cbn [Datatypes.app] in *.
    rewrite bind_unfold, perform_run. cbn beta iota.
    rewrite bind_unfold, get_prop_read, Hlo2. cbn beta iota.
    rewrite bind_unfold, get_prop_read, Hlo2. cbn beta iota.
    rewrite bind_unfold, get_prop_read, Hlo2. cbn beta iota.
    rewrite bind_unfold, perform_run. cbn beta iota.
    do 4 (rewrite bind_unfold, get_prop_read, Hfresh; cbn beta iota).
    rewrite perform_run. eexists _, _. split; [reflexivity|].
    cbn [trace]. by rewrite <- !app_assoc.
Qed.

Lemma first_version_has_no_port_default_witness :
  ∃ w' evOpts,
    Earlier.First.start (sample_runtime false) sample_cluster
      singular_exit_world = (Ret tt, w')
    ∧ trace w' =
      [] ++
        [process_on_uncaughtException evOpts;
         createServer false undefined undefined;
         server_listen undefined undefined undefined undefined].
Proof.
  exact (first_version_has_no_port_default (sample_runtime false)
           sample_cluster 1%nat _ singular_exit_world
           eq_refl eq_refl eq_refl eq_refl).
Defined.


